(** * QuickNotes: the board controller (ui.js, two copies) and the bootstrap (main.js)

    A shallow embedding of the sticky-notes board.  The repository holds two
    copies of ui.js: one that reads the note properties [createdAt] and
    [imageData] (module [UiCreatedAt]) and one that reads [timestamp] and
    [imageDataUrl] (module [UiTimestamp]).  main.js is embedded in module
    [Main].  The browser is modelled as an explicit [World]: the heap of note
    objects, the note manager, the DOM elements with the closure variables of
    their listeners, the children of the board, the pending file reads and a
    trace of the calls the handlers make. *)

From Stdlib Require Import ZArith String Ascii List Lia Bool Permutation Sorting.Sorted.
From stdpp Require Import base list strings sorting.

Local Open Scope string_scope.
Local Open Scope Z_scope.

(** ** JavaScript values and numbers *)

(** The values a note property can hold.  A property the object lacks reads
    as [JUndefined]. *)
Inductive JsValue :=
  | JUndefined
  | JNull
  | JNum (n : Z)
  | JStr (s : string).

(** A JavaScript number that may be NaN ([None]). *)
Definition JsNumber := option Z.

Definition NaN : JsNumber := None.

(** ToBoolean, as used by [!v], [v || w] and [if (v)]. *)
Definition truthy (v : JsValue) : bool :=
  match v with
  | JUndefined | JNull => false
  | JNum n => negb (n =? 0)
  | JStr s => negb (String.eqb s "")
  end.

(** [v || w] *)
Definition js_or (v w : JsValue) : JsValue := if truthy v then v else w.

(** [a - b]: NaN when either operand is. *)
Definition js_sub (a b : JsNumber) : JsNumber :=
  match a, b with
  | Some a, Some b => Some (a - b)
  | _, _ => NaN
  end.

(** [Math.min] and [Math.max]: NaN when either argument is. *)
Definition Math_min (a b : JsNumber) : JsNumber :=
  match a, b with
  | Some a, Some b => Some (Z.min a b)
  | _, _ => NaN
  end.

Definition Math_max (a b : JsNumber) : JsNumber :=
  match a, b with
  | Some a, Some b => Some (Z.max a b)
  | _, _ => NaN
  end.

(** ** Dates

    [Date_parse] reads the date-time format that [toISOString] writes,
    [YYYY-MM-DDTHH:mm:ss.sssZ]; ECMAScript leaves every other string to the
    engine, and here such a string is NaN.  The theorems below use
    [Date_parse] only through its result. *)

Definition digit (c : ascii) : option Z :=
  let n := Z.of_N (N_of_ascii c) in
  if (48 <=? n) && (n <=? 57) then Some (n - 48) else None.

Fixpoint digits (acc : Z) (s : string) : option Z :=
  match s with
  | EmptyString => Some acc
  | String c s' =>
      match digit c with
      | Some d => digits (10 * acc + d) s'
      | None => None
      end
  end.

Definition num_at (s : string) (i n : nat) : option Z :=
  digits 0 (substring i n s).

Definition char_at (s : string) (i : nat) (c : ascii) : bool :=
  match String.get i s with
  | Some c' => Ascii.eqb c c'
  | None => false
  end.

Definition is_leap (y : Z) : bool :=
  ((y mod 4 =? 0) && negb (y mod 100 =? 0)) || (y mod 400 =? 0).

Definition days_in_month (y m : Z) : Z :=
  if m =? 2 then (if is_leap y then 29 else 28)
  else if (m =? 4) || (m =? 6) || (m =? 9) || (m =? 11) then 30
  else 31.

(** Days between 1970-01-01 and the given civil date. *)
Definition days_from_civil (y m d : Z) : Z :=
  let y' := if m <=? 2 then y - 1 else y in
  let era := y' / 400 in
  let yoe := y' - era * 400 in
  let mp := if 2 <? m then m - 3 else m + 9 in
  let doy := (153 * mp + 2) / 5 + d - 1 in
  let doe := yoe * 365 + yoe / 4 - yoe / 100 + doy in
  era * 146097 + doe - 719468.

Definition Date_parse (s : string) : JsNumber :=
  if negb (Nat.eqb (String.length s) 24) then NaN
  else if negb (char_at s 4 "-" && char_at s 7 "-" && char_at s 10 "T" &&
                char_at s 13 ":" && char_at s 16 ":" && char_at s 19 "." &&
                char_at s 23 "Z") then NaN
  else
    match num_at s 0 4, num_at s 5 2, num_at s 8 2,
          num_at s 11 2, num_at s 14 2, num_at s 17 2, num_at s 20 3 with
    | Some y, Some m, Some d, Some h, Some mi, Some sec, Some ms =>
        if (1 <=? m) && (m <=? 12) && (1 <=? d) && (d <=? days_in_month y m) &&
           (mi <=? 59) && (sec <=? 59) &&
           ((h <=? 23) || ((h =? 24) && (mi =? 0) && (sec =? 0) && (ms =? 0)))
        then Some (days_from_civil y m d * 86400000 + h * 3600000 +
                   mi * 60000 + sec * 1000 + ms)
        else NaN
    | _, _, _, _, _, _, _ => NaN
    end.

(** TimeClip: a time value beyond 8.64e15 ms from the epoch is NaN. *)
Definition TimeClip (t : Z) : JsNumber :=
  if Z.abs t <=? 8640000000000000 then Some t else NaN.

(** A Date object is its time value; NaN is an invalid date. *)
Definition JsDate := JsNumber.

(** [new Date(v)] with one argument. *)
Definition new_Date (v : JsValue) : JsDate :=
  match v with
  | JUndefined => NaN
  | JNull => Some 0
  | JNum n => TimeClip n
  | JStr s => Date_parse s
  end.

Definition getTime (d : JsDate) : JsNumber := d.

(** [isNaN(n)] *)
Definition isNaN (n : JsNumber) : bool :=
  match n with
  | None => true
  | Some _ => false
  end.

(** Text produced by the locale formatting.  What the host prints for a
    valid date depends on its locale and stays symbolic; for an invalid date
    both methods return the literal "Invalid Date". *)
Inductive Frag :=
  | Lit (s : string)
  | LocaleDate (ms : Z)
  | LocaleTime (ms : Z).

Abbreviation Text := (list Frag).

Definition toLocaleDateString (d : JsDate) : Text :=
  match d with
  | Some ms => [LocaleDate ms]
  | None => [Lit "Invalid Date"]
  end.

(** [toLocaleTimeString([], { hour: '2-digit', minute: '2-digit' })] *)
Definition toLocaleTimeString (d : JsDate) : Text :=
  match d with
  | Some ms => [LocaleTime ms]
  | None => [Lit "Invalid Date"]
  end.

(** ** Array.prototype.sort

    ECMAScript's sort is stable and reads the comparator through
    SortCompare, where a NaN result counts as +0.  It is modelled as a stable
    insertion sort. *)

Section ArraySort.
Context {A : Type} (comparefn : A → A → JsNumber).

Definition SortCompare (a b : A) : Z :=
  match comparefn a b with
  | None => 0
  | Some v => v
  end.

Fixpoint sort_insert (a : A) (l : list A) : list A :=
  match l with
  | [] => [a]
  | b :: l' =>
      if SortCompare a b <=? 0 then a :: b :: l' else b :: sort_insert a l'
  end.

Fixpoint Array_sort (l : list A) : list A :=
  match l with
  | [] => []
  | a :: l' => sort_insert a (Array_sort l')
  end.
End ArraySort.

(** ** Notes and the note manager *)

(** A note object with the properties that ui.js and main.js read or write.
    The two copies of ui.js name the creation time and the image differently,
    so both names are here; an object that lacks one holds [JUndefined]. *)
Record Note := mkNote {
  note_id : string;
  note_content : string;
  note_x : JsNumber;
  note_y : JsNumber;
  createdAt : JsValue;
  timestamp : JsValue;
  imageData : JsValue;
  imageDataUrl : JsValue;
}.

(** Modelled from the spec: [Note.updatePosition(x, y)] of notes.js, which is
    not among the sources ("replaces position; [...] this component does not
    re-clamp"). *)
Definition updatePosition (nx ny : JsNumber) (n : Note) : Note :=
  mkNote (note_id n) (note_content n) nx ny
         (createdAt n) (timestamp n) (imageData n) (imageDataUrl n).

(** [note.imageData = v] and [note.imageDataUrl = v] *)
Definition set_imageData (v : JsValue) (n : Note) : Note :=
  mkNote (note_id n) (note_content n) (note_x n) (note_y n)
         (createdAt n) (timestamp n) v (imageDataUrl n).

Definition set_imageDataUrl (v : JsValue) (n : Note) : Note :=
  mkNote (note_id n) (note_content n) (note_x n) (note_y n)
         (createdAt n) (timestamp n) (imageData n) v.

(** [noteData.timestamp = v] *)
Definition set_timestamp (v : JsValue) (n : Note) : Note :=
  mkNote (note_id n) (note_content n) (note_x n) (note_y n)
         (createdAt n) v (imageData n) (imageDataUrl n).

(** Note objects live in a heap and are shared by reference: the array that
    [getAllNotes] returns, the closures of the listeners and the manager all
    point at the same objects. *)
Abbreviation Loc := nat.
Abbreviation Heap := (list Note).

(** Modelled from the spec: the [NoteManager] of notes.js, which is not among
    the sources ("mapping from id to Note", enumerated in insertion order).
    It is a JavaScript Map: an association list from id to reference. *)
Abbreviation NoteManager := (list (string * Loc)).

Fixpoint Map_set (k : string) (l : Loc) (m : NoteManager) : NoteManager :=
  match m with
  | [] => [(k, l)]
  | (k', l') :: m' =>
      if String.eqb k k' then (k, l) :: m' else (k', l') :: Map_set k l m'
  end.

Definition Map_delete (k : string) (m : NoteManager) : NoteManager :=
  filter (λ kl, negb (String.eqb k kl.1) = true) m.

Definition Map_has (k : string) (m : NoteManager) : bool :=
  existsb (λ kl, String.eqb k kl.1) m.

(** Modelled from the spec: [getAllNotes()] "returns all notes; order is
    insertion order", as a fresh array of references. *)
Definition getAllNotes (m : NoteManager) : list Loc := m.*2.

(** ** The DOM and the world *)

Abbreviation ElemId := nat.

(** A note element, with the sub-elements that ui.js touches and the closure
    variables of [setupNoteEventListeners] for this element. *)
Record Element := mkElement {
  el_note : Loc;                 (* the [note] the listeners close over *)
  classList : list string;
  timestampEl : option Text;     (* textContent of the .note-timestamp child, if there is one *)
  imagePreview_src : JsValue;
  imagePreview_display : string;
  style_position : string;
  style_left : option JsNumber;  (* in px *)
  style_top : option JsNumber;
  listening : bool;              (* [setupNoteEventListeners] has run *)
  isDragging : bool;
  dragOffsetX : JsNumber;        (* undefined until the first mousedown: NaN in arithmetic *)
  dragOffsetY : JsNumber;
  animationend : nat;            (* listeners added by [deleteNote] *)
}.

Inductive Order := Asc | Desc.

(** A file offered by the image input, with the data URL that reading it
    gives. *)
Record File := mkFile {
  file_type : string;
  file_dataUrl : string;
}.

(** A FileReader whose [readAsDataURL] has started and whose [onload] has
    not run yet. *)
Record Reader := mkReader {
  reader_element : ElemId;
  reader_file : File;
}.

(** The calls the handlers make, in the order they make them. *)
Inductive Call :=
  | CUpdatePosition (l : Loc) (x y : JsNumber)
  | CRemoveNote (id : string)
  | CElementRemove (e : ElemId)
  | CConsoleWarn (msg : string) (v : JsValue)
  | CReadAsDataURL (e : ElemId) (f : File).

Record World := mkWorld {
  heap : Heap;
  manager : NoteManager;
  elements : list Element;
  board : list ElemId;           (* children of #note-board, first to last *)
  readers : list Reader;
  trace : list Call;
}.

Definition set_heap (h : Heap) (w : World) : World :=
  mkWorld h (manager w) (elements w) (board w) (readers w) (trace w).
Definition set_manager (m : NoteManager) (w : World) : World :=
  mkWorld (heap w) m (elements w) (board w) (readers w) (trace w).
Definition set_elements (es : list Element) (w : World) : World :=
  mkWorld (heap w) (manager w) es (board w) (readers w) (trace w).
Definition set_board (b : list ElemId) (w : World) : World :=
  mkWorld (heap w) (manager w) (elements w) b (readers w) (trace w).
Definition set_readers (r : list Reader) (w : World) : World :=
  mkWorld (heap w) (manager w) (elements w) (board w) r (trace w).
Definition log (c : Call) (w : World) : World :=
  mkWorld (heap w) (manager w) (elements w) (board w) (readers w) (trace w ++ [c]).

(** Apply [f] to the element [e] in place. *)
Definition with_element (e : ElemId) (f : Element → Element) (w : World) : World :=
  set_elements (alter f e (elements w)) w.

(** [note.updatePosition(x, y)] on the shared object at [l]. *)
Definition note_updatePosition (l : Loc) (nx ny : JsNumber) (w : World) : World :=
  log (CUpdatePosition l nx ny) (set_heap (alter (updatePosition nx ny) l (heap w)) w).

(** Modelled from the spec: [noteManager.addNote(note)] of notes.js ("inserts
    under its id"). *)
Definition addNote (l : Loc) (w : World) : World :=
  match heap w !! l with
  | Some n => set_manager (Map_set (note_id n) l (manager w)) w
  | None => w
  end.

(** Modelled from the spec: [noteManager.removeNote(id)] of notes.js
    ("removes if present; no-op (not an error) if absent"). *)
Definition removeNote (k : string) (w : World) : World :=
  log (CRemoveNote k) (set_manager (Map_delete k (manager w)) w).

(** Modelled from the spec: [note.createElement()] of notes.js, which is not
    among the sources: a fresh element for the note, not yet in the document
    and with no listeners. *)
Definition createElement (l : Loc) (w : World) : ElemId * World :=
  (List.length (elements w),
   set_elements (elements w ++
     [mkElement l [] None JUndefined "" "" None None false false NaN NaN 0%nat]) w).

(** [noteBoard.appendChild(noteElement)] *)
Definition appendChild (e : ElemId) (w : World) : World :=
  set_board (filter (λ c, c ≠ e) (board w) ++ [e]) w.

(** [noteElement.remove()] *)
Definition element_remove (e : ElemId) (w : World) : World :=
  log (CElementRemove e) (set_board (filter (λ c, c ≠ e) (board w)) w).

(** The notes shown on the board, first child to last. *)
Definition board_notes (w : World) : list Loc :=
  omap (λ e, el_note <$> elements w !! e) (board w).

(** Assignments to the properties of an element. *)
Definition set_classList (c : list string) (el : Element) : Element :=
  mkElement (el_note el) c (timestampEl el) (imagePreview_src el)
    (imagePreview_display el) (style_position el) (style_left el) (style_top el)
    (listening el) (isDragging el) (dragOffsetX el) (dragOffsetY el) (animationend el).

Definition set_timestampEl (t : option Text) (el : Element) : Element :=
  mkElement (el_note el) (classList el) t (imagePreview_src el)
    (imagePreview_display el) (style_position el) (style_left el) (style_top el)
    (listening el) (isDragging el) (dragOffsetX el) (dragOffsetY el) (animationend el).

Definition set_imagePreview (src : JsValue) (display : string) (el : Element) : Element :=
  mkElement (el_note el) (classList el) (timestampEl el) src
    display (style_position el) (style_left el) (style_top el)
    (listening el) (isDragging el) (dragOffsetX el) (dragOffsetY el) (animationend el).

Definition set_style (position : string) (l t : JsNumber) (el : Element) : Element :=
  mkElement (el_note el) (classList el) (timestampEl el) (imagePreview_src el)
    (imagePreview_display el) position (Some l) (Some t)
    (listening el) (isDragging el) (dragOffsetX el) (dragOffsetY el) (animationend el).

Definition set_listening (b : bool) (el : Element) : Element :=
  mkElement (el_note el) (classList el) (timestampEl el) (imagePreview_src el)
    (imagePreview_display el) (style_position el) (style_left el) (style_top el)
    b (isDragging el) (dragOffsetX el) (dragOffsetY el) (animationend el).

Definition set_isDragging (b : bool) (el : Element) : Element :=
  mkElement (el_note el) (classList el) (timestampEl el) (imagePreview_src el)
    (imagePreview_display el) (style_position el) (style_left el) (style_top el)
    (listening el) b (dragOffsetX el) (dragOffsetY el) (animationend el).

Definition set_dragOffset (ox oy : JsNumber) (el : Element) : Element :=
  mkElement (el_note el) (classList el) (timestampEl el) (imagePreview_src el)
    (imagePreview_display el) (style_position el) (style_left el) (style_top el)
    (listening el) (isDragging el) ox oy (animationend el).

Definition add_animationend (el : Element) : Element :=
  mkElement (el_note el) (classList el) (timestampEl el) (imagePreview_src el)
    (imagePreview_display el) (style_position el) (style_left el) (style_top el)
    (listening el) (isDragging el) (dragOffsetX el) (dragOffsetY el) (S (animationend el)).

(** [classList.add(c)] and [classList.remove(c)] *)
Definition classList_add (c : string) (el : Element) : Element :=
  set_classList (if existsb (String.eqb c) (classList el) then classList el
                 else classList el ++ [c]) el.

Definition classList_remove (c : string) (el : Element) : Element :=
  set_classList (filter (λ c', c' ≠ c) (classList el)) el.

(** ** What the browser supplies with a mouse event *)

Record Rect := mkRect {
  rect_left : Z;
  rect_top : Z;
  rect_width : Z;
  rect_height : Z;
}.

Record MouseEvent := mkMouseEvent {
  clientX : Z;
  clientY : Z;
}.

(** The layout at the time of an event: [getBoundingClientRect()] of the
    board and of each note element, and each element's [offsetWidth] and
    [offsetHeight]. *)
Record Layout := mkLayout {
  boardRect : Rect;
  noteRect : ElemId → Rect;
  offsetWidth : ElemId → Z;
  offsetHeight : ElemId → Z;
}.

(** Where inside a note element a mousedown lands. *)
Inductive Target :=
  | TDeleteButton
  | TQuoteButton
  | TContentElement
  | TImageUploadBtn
  | TImageInput
  | TImagePreview
  | TElsewhere.

(** ** Listeners that the two copies of ui.js share

    The drag listeners (lines 136-169 and 457-509) and [deleteNote] (lines
    175-181 and 518-530) are the same code in both copies; the first copy
    tests the mousedown target with [includes], the second with a chain of
    [===]. *)

Definition is_control (t : Target) : bool :=
  match t with
  | TElsewhere => false
  | _ => true
  end.

(** The mousedown listener of the note element [e]. *)
Definition mousedown_listener (e : ElemId) (t : Target) (ev : MouseEvent)
    (lay : Layout) (w : World) : World :=
  if is_control t then w
  else
    let w := with_element e (set_isDragging true) w in
    let r := noteRect lay e in
    let w := with_element e
               (set_dragOffset (Some (clientX ev - rect_left r))
                               (Some (clientY ev - rect_top r))) w in
    with_element e (classList_add "note-active") w.

(** The clamped position that the mousemove listener computes. *)
Definition drag_position (el : Element) (e : ElemId) (ev : MouseEvent)
    (lay : Layout) : JsNumber * JsNumber :=
  let b := boardRect lay in
  let newX := js_sub (Some (clientX ev - rect_left b)) (dragOffsetX el) in
  let newY := js_sub (Some (clientY ev - rect_top b)) (dragOffsetY el) in
  let newX := Math_max (Some 0) (Math_min newX (Some (rect_width b - offsetWidth lay e))) in
  let newY := Math_max (Some 0) (Math_min newY (Some (rect_height b - offsetHeight lay e))) in
  (newX, newY).

(** The mousemove listener that [setupNoteEventListeners] put on the document
    for the note element [e]. *)
Definition mousemove_listener (e : ElemId) (ev : MouseEvent) (lay : Layout)
    (w : World) : World :=
  match elements w !! e with
  | Some el =>
      if negb (isDragging el) then w
      else
        let '(newX, newY) := drag_position el e ev lay in
        note_updatePosition (el_note el) newX newY w
  | None => w
  end.

(** The mouseup listener on the document for the note element [e]. *)
Definition mouseup_listener (e : ElemId) (w : World) : World :=
  match elements w !! e with
  | Some el =>
      if isDragging el then
        with_element e (classList_remove "note-active")
          (with_element e (set_isDragging false) w)
      else w
  | None => w
  end.

(** Elements whose listeners are installed, in the order they were
    installed; the document runs their listeners in that order. *)
Definition listeners (w : World) : list ElemId :=
  filter (λ e, (listening <$> elements w !! e) = Some true)
         (seq 0 (List.length (elements w))).

Definition document_mousemove (ev : MouseEvent) (lay : Layout) (w : World) : World :=
  foldl (λ w e, mousemove_listener e ev lay w) w (listeners w).

Definition document_mouseup (w : World) : World :=
  foldl (λ w e, mouseup_listener e w) w (listeners w).

(** [deleteNote(noteElement, note, noteManager)] *)
Definition deleteNote (e : ElemId) (w : World) : World :=
  let w := with_element e (classList_add "note-fade-out") w in
  with_element e add_animationend w.

(** The listener that [deleteNote] adds for [animationend]. *)
Definition animationend_listener (e : ElemId) (w : World) : World :=
  match elements w !! e with
  | Some el =>
      match heap w !! el_note el with
      | Some n =>
          let w := element_remove e w in
          removeNote (note_id n) w
      | None => w
      end
  | None => w
  end.

(** An [animationend] event on the note element [e] runs every listener
    that was added for it. *)
Definition dispatch_animationend (e : ElemId) (w : World) : World :=
  match elements w !! e with
  | Some el => Nat.iter (animationend el) (animationend_listener e) w
  | None => w
  end.

(** Read a property of the note object at [l]. *)
Definition prop (f : Note → JsValue) (w : World) (l : Loc) : JsValue :=
  from_option f JUndefined (heap w !! l).

Definition coord (f : Note → JsNumber) (w : World) (l : Loc) : JsNumber :=
  from_option f NaN (heap w !! l).

(** The events of the handlers embedded here. *)
Inductive Event :=
  | EDeleteClick (e : ElemId)
  | EAnimationEnd (e : ElemId)
  | EMouseDown (e : ElemId) (t : Target) (ev : MouseEvent) (lay : Layout)
  | EMouseMove (ev : MouseEvent) (lay : Layout)
  | EMouseUp
  | EImageChange (e : ElemId) (files : list File)
  | EReaderLoad (k : nat)
  | ESortClick (order : Order).

(** [file.type.startsWith('image/')] *)
Definition is_image (f : File) : bool := String.prefix "image/" (file_type f).

(** ** The copy of ui.js that reads [createdAt] and [imageData] (lines 1-275) *)
Module UiCreatedAt.

(** [renderTimestamp(noteElement, timestamp)], lines 218-239 *)
Definition renderTimestamp (e : ElemId) (ts : JsValue) (w : World) : World :=
  let date := new_Date ts in
  if isNaN (getTime date) then log (CConsoleWarn "Invalid timestamp:" ts) w
  else
    let formatted := (toLocaleDateString date ++ [Lit " "] ++ toLocaleTimeString date)%list in
    let w :=
      match timestampEl <$> elements w !! e with
      | Some None => with_element e (set_timestampEl (Some [])) w
      | _ => w
      end in
    with_element e (set_timestampEl (Some formatted)) w.

(** The change listener of the image input, lines 122-134 *)
Definition imageInput_change (e : ElemId) (files : list File) (w : World) : World :=
  match files !! 0%nat with
  | Some file =>
      if is_image file then
        log (CReadAsDataURL e file) (set_readers (readers w ++ [mkReader e file]) w)
      else w
  | None => w
  end.

(** [reader.onload], lines 126-131, for the [k]-th pending reader *)
Definition reader_onload (k : nat) (w : World) : World :=
  match readers w !! k with
  | Some r =>
      let e := reader_element r in
      let dataUrl := JStr (file_dataUrl (reader_file r)) in
      let w := set_readers (delete k (readers w)) w in
      match elements w !! e with
      | Some el =>
          let w := with_element e (set_imagePreview dataUrl "block") w in
          set_heap (alter (set_imageData dataUrl) (el_note el) (heap w)) w
      | None => w
      end
  | None => w
  end.

(** [setupNoteEventListeners(noteElement, note, noteManager)], lines 74-170:
    what it does at once; the listeners it installs are the definitions
    above, switched on by [listening]. *)
Definition setupNoteEventListeners (e : ElemId) (l : Loc) (w : World) : World :=
  let w :=
    if truthy (prop imageData w l)
    then with_element e (set_imagePreview (prop imageData w l) "block") w
    else with_element e (λ el, set_imagePreview (imagePreview_src el) "none" el) w in
  let w :=
    if truthy (prop createdAt w l) then renderTimestamp e (prop createdAt w l) w
    else w in
  with_element e (set_listening true) w.

(** The comparator of lines 247-251 *)
Definition comparefn (w : World) (order : Order) (a b : Loc) : JsNumber :=
  let dateA := getTime (new_Date (prop createdAt w a)) in
  let dateB := getTime (new_Date (prop createdAt w b)) in
  match order with
  | Asc => js_sub dateA dateB
  | Desc => js_sub dateB dateA
  end.

Definition startX : Z := 20.
Definition spacingY : Z := 160.

(** The body of the [forEach] of lines 261-274, with [offsetY] threaded *)
Definition place (st : Z * World) (l : Loc) : Z * World :=
  let '(offsetY, w) := st in
  let w := note_updatePosition l (Some startX) (Some offsetY) w in
  let '(e, w) := createElement l w in
  let w := setupNoteEventListeners e l w in
  let w := with_element e (set_style "absolute" (coord note_x w l) (coord note_y w l)) w in
  let w := appendChild e w in
  let w := renderTimestamp e (prop createdAt w l) w in
  (offsetY + spacingY, w).

(** [sortNotesByTimestamp(noteManager, order)], lines 244-275 *)
Definition sortNotesByTimestamp (order : Order) (w : World) : World :=
  let notes := getAllNotes (manager w) in
  let notes := Array_sort (comparefn w order) notes in
  let w := set_board [] w in
  (foldl place (20, w) notes).2.

(** [renderAllNotes(noteManager)], lines 204-213 *)
Definition renderAllNotes (w : World) : World :=
  let w := set_board [] w in
  foldl (λ w l,
           let '(e, w) := createElement l w in
           let w := setupNoteEventListeners e l w in
           appendChild e w)
        w (getAllNotes (manager w)).

Definition is_listening (e : ElemId) (w : World) : bool :=
  bool_decide ((listening <$> elements w !! e) = Some true).

Definition handle (ev : Event) (w : World) : World :=
  match ev with
  | EDeleteClick e => if is_listening e w then deleteNote e w else w
  | EAnimationEnd e => dispatch_animationend e w
  | EMouseDown e t m lay => if is_listening e w then mousedown_listener e t m lay w else w
  | EMouseMove m lay => document_mousemove m lay w
  | EMouseUp => document_mouseup w
  | EImageChange e files => if is_listening e w then imageInput_change e files w else w
  | EReaderLoad k => reader_onload k w
  | ESortClick order => sortNotesByTimestamp order w
  end.

End UiCreatedAt.

(** ** The copy of ui.js that reads [timestamp] and [imageDataUrl] (lines 276-623) *)
Module UiTimestamp.

(** [renderTimestamp(noteElement, timestamp)], lines 579-596 *)
Definition renderTimestamp (e : ElemId) (ts : JsValue) (w : World) : World :=
  let date := new_Date ts in
  let formatted := (toLocaleDateString date ++ [Lit " "] ++ toLocaleTimeString date)%list in
  let w :=
    match timestampEl <$> elements w !! e with
    | Some None => with_element e (set_timestampEl (Some [])) w
    | _ => w
    end in
  with_element e (set_timestampEl (Some formatted)) w.

(** The change listener of the image input, lines 435-454 *)
Definition imageInput_change (e : ElemId) (files : list File) (w : World) : World :=
  match files !! 0%nat with
  | Some file =>
      if is_image file then
        log (CReadAsDataURL e file) (set_readers (readers w ++ [mkReader e file]) w)
      else w
  | None => w
  end.

(** [reader.onload], lines 439-451, for the [k]-th pending reader *)
Definition reader_onload (k : nat) (w : World) : World :=
  match readers w !! k with
  | Some r =>
      let e := reader_element r in
      let dataUrl := JStr (file_dataUrl (reader_file r)) in
      let w := set_readers (delete k (readers w)) w in
      match elements w !! e with
      | Some el =>
          let w := with_element e (set_imagePreview dataUrl "block") w in
          set_heap (alter (set_imageDataUrl dataUrl) (el_note el) (heap w)) w
      | None => w
      end
  | None => w
  end.

(** [setupNoteEventListeners(noteElement, note, noteManager)], lines 375-510 *)
Definition setupNoteEventListeners (e : ElemId) (l : Loc) (w : World) : World :=
  let w :=
    if truthy (prop imageDataUrl w l)
    then with_element e (set_imagePreview (prop imageDataUrl w l) "block") w
    else with_element e (λ el, set_imagePreview (imagePreview_src el) "none" el) w in
  let w :=
    if truthy (prop timestamp w l) then renderTimestamp e (prop timestamp w l) w
    else w in
  with_element e (set_listening true) w.

(** The comparator of lines 608-612 *)
Definition comparefn (w : World) (order : Order) (a b : Loc) : JsNumber :=
  let dateA := getTime (new_Date (js_or (prop timestamp w a) (JNum 0))) in
  let dateB := getTime (new_Date (js_or (prop timestamp w b) (JNum 0))) in
  match order with
  | Asc => js_sub dateA dateB
  | Desc => js_sub dateB dateA
  end.

(** The body of the [forEach] of lines 618-622 *)
Definition place (w : World) (l : Loc) : World :=
  let '(e, w) := createElement l w in
  let w := setupNoteEventListeners e l w in
  appendChild e w.

(** [sortNotesByTimestamp(noteManager, order)], lines 603-623 *)
Definition sortNotesByTimestamp (order : Order) (w : World) : World :=
  let notes := getAllNotes (manager w) in
  let notes := Array_sort (comparefn w order) notes in
  let w := set_board [] w in
  foldl place w notes.

(** [renderAllNotes(noteManager)], lines 557-572 *)
Definition renderAllNotes (w : World) : World :=
  let w := foldl (λ w e, element_remove e w) w (board w) in
  foldl place w (getAllNotes (manager w)).

Definition is_listening (e : ElemId) (w : World) : bool :=
  bool_decide ((listening <$> elements w !! e) = Some true).

Definition handle (ev : Event) (w : World) : World :=
  match ev with
  | EDeleteClick e => if is_listening e w then deleteNote e w else w
  | EAnimationEnd e => dispatch_animationend e w
  | EMouseDown e t m lay => if is_listening e w then mousedown_listener e t m lay w else w
  | EMouseMove m lay => document_mousemove m lay w
  | EMouseUp => document_mouseup w
  | EImageChange e files => if is_listening e w then imageInput_change e files w else w
  | EReaderLoad k => reader_onload k w
  | ESortClick order => sortNotesByTimestamp order w
  end.

End UiTimestamp.

(** The two copies of ui.js, for statements that hold of both. *)
Inductive Copy := CreatedAtCopy | TimestampCopy.

Definition handle (c : Copy) : Event → World → World :=
  match c with
  | CreatedAtCopy => UiCreatedAt.handle
  | TimestampCopy => UiTimestamp.handle
  end.

Definition sortNotesByTimestamp (c : Copy) : Order → World → World :=
  match c with
  | CreatedAtCopy => UiCreatedAt.sortNotesByTimestamp
  | TimestampCopy => UiTimestamp.sortNotesByTimestamp
  end.

Definition renderAllNotes (c : Copy) : World → World :=
  match c with
  | CreatedAtCopy => UiCreatedAt.renderAllNotes
  | TimestampCopy => UiTimestamp.renderAllNotes
  end.

(** ** main.js *)
Module Main.

(** What [loadNotes()] returned: a falsy value, a value that is not an
    array, or an array of note records.  A record is a plain object with
    the properties of a note. *)
Inductive Saved :=
  | SavedNull
  | SavedOther
  | SavedArray (records : list Note).

(** Modelled from the spec: the constructor [new Note(noteData)] of
    notes.js, which is not among the sources ("constructs a note with the
    given content, position, creation time"; "every field [...] must
    survive a round trip"): a new object with the properties of the
    record. *)
Definition new_Note (noteData : Note) (w : World) : Loc * World :=
  (List.length (heap w), set_heap (heap w ++ [noteData])%list w).

(** The start of a page: [new NoteManager()], an empty board. *)
Definition initial : World := mkWorld [] [] [] [] [] [].

(** The [forEach] of lines 24-30.  [now i] is what
    [new Date().toISOString()] gives while the [i]-th record is handled. *)
Fixpoint forEach_saved (now : nat → string) (i : nat) (records : list Note)
    (w : World) : World :=
  match records with
  | [] => w
  | noteData :: rest =>
      let noteData :=
        if negb (truthy (timestamp noteData))
        then set_timestamp (JStr (now i)) noteData
        else noteData in
      let '(note, w) := new_Note noteData w in
      forEach_saved now (S i) rest (addNote note w)
  end.

(** The DOMContentLoaded handler, lines 11-54, with the copy [c] of ui.js
    behind the import. *)
Definition bootstrap (c : Copy) (now : nat → string) (savedNotes : Saved) : World :=
  match savedNotes with
  | SavedArray records =>
      renderAllNotes c (forEach_saved now 0 records initial)
  | _ => initial
  end.

End Main.

(** ** Vocabulary of the statements *)

(** Ordered by a key. *)
Definition by_key {A : Type} (key : A → Z) (a b : A) : Prop := key a ≤ key b.

(** The note behind each element, in creation order. *)
Definition el_notes (w : World) : list Loc := el_note <$> elements w.

(** [w'] differs from [w] at most in the state of the elements and in the
    trace: heap, manager, board and pending reads are the same, and every
    element still belongs to the same note. *)
Definition dom_only (w w' : World) : Prop :=
  heap w' = heap w ∧ manager w' = manager w ∧ board w' = board w ∧
  readers w' = readers w ∧ el_notes w' = el_notes w.

(** The property in which each copy keeps the creation time, and the one in
    which it keeps the image. *)
Definition creation_field (c : Copy) : Note → JsValue :=
  match c with
  | CreatedAtCopy => createdAt
  | TimestampCopy => timestamp
  end.

Definition image_field (c : Copy) : Note → JsValue :=
  match c with
  | CreatedAtCopy => imageData
  | TimestampCopy => imageDataUrl
  end.

(** The creation time of the note at [l], as a time value. *)
Definition creation_time (c : Copy) (w : World) (l : Loc) : JsNumber :=
  getTime (new_Date (prop (creation_field c) w l)).

(** The ids of the notes in the manager. *)
Definition manager_ids (w : World) : list string := (manager w).*1.

(** The manager is a Map built by [addNote]: the keys are distinct and each
    is the id of the note it refers to. *)
Definition manager_wf (w : World) : Prop :=
  NoDup (manager w).*1 ∧
  ∀ k l, (k, l) ∈ manager w → ∃ n, heap w !! l = Some n ∧ note_id n = k.

(** No element is being dragged. *)
Definition no_drag (w : World) : Prop :=
  ∀ e el, elements w !! e = Some el → isDragging el = false.

(** Every pending read is of an image-typed file. *)
Definition readers_image (w : World) : Prop :=
  Forall (λ r, is_image (reader_file r) = true) (readers w).

(** The heap after the notes at [ls] have been laid out one below the other,
    the first one at height [o]. *)
Fixpoint stack_heap (o : Z) (ls : list Loc) (h : Heap) : Heap :=
  match ls with
  | [] => h
  | l :: ls' => stack_heap (o + 160) ls' (alter (updatePosition (Some 20) (Some o)) l h)
  end.

(** Every child of the board is an element that exists. *)
Definition board_fresh (w : World) : Prop :=
  Forall (λ e, (e < List.length (elements w))%nat) (board w).

(** The creation time of the note at [l] with a missing one read as the
    epoch. *)
Definition time_or_epoch (c : Copy) (w : World) (l : Loc) : Z :=
  match prop (creation_field c) w l with
  | JUndefined => 0
  | v => default 0 (getTime (new_Date v))
  end.

(** A note with its position forgotten. *)
Definition forget_position (n : Note) : Note := updatePosition NaN NaN n.

(** ** Sample worlds *)

Definition sample_note (k : string) (nx ny : Z) (created stamp : JsValue) : Note :=
  mkNote k "" (Some nx) (Some ny) created stamp JUndefined JUndefined.

(** Two notes, created 5 ms and 3 ms after the epoch, under both property
    names. *)
Definition world_two : World :=
  mkWorld
    [sample_note "a" 300 40 (JStr "1970-01-01T00:00:00.005Z") (JStr "1970-01-01T00:00:00.005Z");
     sample_note "b" 10 10 (JStr "1970-01-01T00:00:00.003Z") (JStr "1970-01-01T00:00:00.003Z")]
    [("a", 0%nat); ("b", 1%nat)] [] [] [] [].

(** A note created 5 ms after the epoch, then a note with no creation time. *)
Definition world_missing_last : World :=
  mkWorld
    [sample_note "a" 300 40 (JStr "1970-01-01T00:00:00.005Z") (JStr "1970-01-01T00:00:00.005Z");
     sample_note "n" 10 10 JUndefined JUndefined]
    [("a", 0%nat); ("n", 1%nat)] [] [] [] [].

(** The same two notes, the one with no creation time added first. *)
Definition world_missing_first : World :=
  mkWorld
    [sample_note "n" 10 10 JUndefined JUndefined;
     sample_note "a" 300 40 (JStr "1970-01-01T00:00:00.005Z") (JStr "1970-01-01T00:00:00.005Z")]
    [("n", 0%nat); ("a", 1%nat)] [] [] [] [].

(** A note whose creation time is the string "yesterday", under both
    property names. *)
Definition world_yesterday : World :=
  mkWorld [sample_note "a" 300 40 (JStr "yesterday") (JStr "yesterday")]
          [("a", 0%nat)] [] [] [] [].

(** A board of 100 by 100 at the origin and a note element of 200 by 50. *)
Definition wide_layout : Layout :=
  mkLayout (mkRect 0 0 100 100) (λ _, mkRect 0 0 200 50) (λ _, 200) (λ _, 50).

(** The two sample notes rendered by the first copy. *)
Definition world_rendered : World := UiCreatedAt.renderAllNotes world_two.

(** Then a mousedown on the first note element at (5, 5). *)
Definition world_dragging : World :=
  mousedown_listener 0%nat TElsewhere (mkMouseEvent 5 5) wide_layout world_rendered.

(** A mouse move to (50, 60). *)
Definition sample_move : MouseEvent := mkMouseEvent 50 60.

(** The element [e] of a world that has it. *)
Definition element_of (w : World) (e : ElemId) : Element :=
  default (mkElement 0 [] None JUndefined "" "" None None false false NaN NaN 0)
          (elements w !! e).

(** A text file, as offered by the image input. *)
Definition text_file : File := mkFile "text/plain" "data:text/plain;base64,aGk=".

(** The record [r] as main.js leaves it when it is the [i]-th of the saved
    records, and the saved records so treated from index [i] on. *)
Definition backfill (now : nat → string) (i : nat) (r : Note) : Note :=
  if truthy (timestamp r) then r else set_timestamp (JStr (now i)) r.

Fixpoint backfilled (now : nat → string) (i : nat) (records : list Note) : list Note :=
  match records with
  | [] => []
  | r :: rest => backfill now i r :: backfilled now (S i) rest
  end.

(** A clock that stands at 2025-07-09 14:37 UTC, and two saved records, the
    second without creation time. *)
Definition sample_clock (i : nat) : string := "2025-07-09T14:37:00.000Z".

Definition sample_records : list Note :=
  [sample_note "a" 300 40 JUndefined (JStr "1970-01-01T00:00:00.005Z");
   sample_note "n" 10 10 JUndefined JUndefined].

(** An element that is being dragged has both drag offsets. *)
Definition drag_ok (el : Element) : Prop :=
  isDragging el = true → is_Some (dragOffsetX el) ∧ is_Some (dragOffsetY el).

Definition drag_defined (w : World) : Prop := Forall drag_ok (elements w).

(** ** More of ui.js: creating a note, editing its text, the quote button *)

(** Modelled from the spec: [Note.updateContent(text)] of notes.js, which is
    not among the sources ("replaces content; no validation, any text
    including empty is valid"). *)
Definition updateContent (text : string) (n : Note) : Note :=
  mkNote (note_id n) text (note_x n) (note_y n)
         (createdAt n) (timestamp n) (imageData n) (imageDataUrl n).

(** The input listener of the content element, lines 98-100 and 402-404;
    [text] is [contentElement.textContent]. *)
Definition content_input (e : ElemId) (text : string) (w : World) : World :=
  match elements w !! e with
  | Some el => set_heap (alter (updateContent text) (el_note el) (heap w)) w
  | None => w
  end.

(** Modelled from the spec: [createNote(attributes)] of notes.js, which is
    not among the sources ("constructs a note with the given content,
    position, creation time"; the id is "assigned at creation").  [k] is the
    id it assigns; the new object has the attributes it was given. *)
Definition createNote (k : string) (attributes : Note) (w : World) : Loc * World :=
  (List.length (heap w),
   set_heap (heap w ++ [mkNote k (note_content attributes) (note_x attributes)
                           (note_y attributes) (createdAt attributes)
                           (timestamp attributes) (imageData attributes)
                           (imageDataUrl attributes)])%list w).

(** [createNewNote(x, y, noteManager)], lines 43-69 and 327-367.  [now] is
    what [new Date().toISOString()] gives, [k] the id that [createNote]
    assigns, [lay] the layout at the time of the call. *)
Definition createNewNote (c : Copy) (k now : string) (x y : Z) (lay : Layout)
    (w : World) : Loc * World :=
  let boardX := x - rect_left (boardRect lay) in
  let boardY := y - rect_top (boardRect lay) in
  match c with
  | CreatedAtCopy =>
      let createdAt := now in
      let '(note, w) :=
        createNote k (mkNote "" "" (Some boardX) (Some boardY) (JStr createdAt)
                             JUndefined (JStr "") JUndefined) w in
      let w := addNote note w in
      let '(noteElement, w) := createElement note w in
      let w := UiCreatedAt.setupNoteEventListeners noteElement note w in
      let w := appendChild noteElement w in
      let w := UiCreatedAt.renderTimestamp noteElement (JStr createdAt) w in
      (note, w)
  | TimestampCopy =>
      let timestamp := now in
      let '(note, w) :=
        createNote k (mkNote "" "" (Some boardX) (Some boardY) JUndefined
                             (JStr timestamp) JUndefined (JStr "")) w in
      let w := addNote note w in
      let '(noteElement, w) := createElement note w in
      let w := UiTimestamp.setupNoteEventListeners noteElement note w in
      let w := appendChild noteElement w in
      let w := UiTimestamp.renderTimestamp noteElement (JStr timestamp) w in
      (note, w)
  end.

(** The dblclick listener of the board, lines 19-23 and 295-300.
    [onBoard] is [event.target === noteBoard]. *)
Definition dblclick_listener (c : Copy) (onBoard : bool) (k now : string)
    (ev : MouseEvent) (lay : Layout) (w : World) : World :=
  if onBoard then (createNewNote c k now (clientX ev) (clientY ev) lay w).2 else w.

(** The events of ui.js embedded here: those above, a double click and an
    edit of a note's text. *)
Inductive AppEvent :=
  | Ui (ev : Event)
  | EDblClick (onBoard : bool) (k now : string) (ev : MouseEvent) (lay : Layout)
  | EContentInput (e : ElemId) (text : string).

Definition handle_app (c : Copy) (ev : AppEvent) (w : World) : World :=
  match ev with
  | Ui ev => handle c ev w
  | EDblClick onBoard k now m lay => dblclick_listener c onBoard k now m lay w
  | EContentInput e text =>
      if bool_decide ((listening <$> elements w !! e) = Some true)
      then content_input e text w else w
  end.

(** The worlds that a page goes through: the bootstrap, then events. *)
Inductive reachable (c : Copy) : World → Prop :=
  | reachable_bootstrap (now : nat → string) (savedNotes : Main.Saved) :
      reachable c (Main.bootstrap c now savedNotes)
  | reachable_event (ev : AppEvent) (w : World) :
      reachable c w → reachable c (handle_app c ev w).

(** The click listener of the quote button, lines 106-116 and 412-427, as a
    state machine: the text of the button, the calls of [addRandomQuote]
    that are awaited, the timeouts of 1500 ms that have not fired, and the
    number of [console.error] calls. *)
Record QuoteButton := mkQuoteButton {
  quote_textContent : string;
  quote_pending : nat;
  quote_timers : nat;
  quote_errors : nat;
}.

(** A click, the fulfilment or the rejection of an awaited call, and the
    firing of a timeout. *)
Inductive QuoteEvent := QClick | QFulfilled | QRejected | QTimeout.

#[global] Instance QuoteEvent_eq_dec : EqDecision QuoteEvent.
Proof. solve_decision. Defined.

Definition quote_step (b : QuoteButton) (ev : QuoteEvent) : QuoteButton :=
  match ev with
  | QClick =>
      mkQuoteButton "⌛" (S (quote_pending b)) (quote_timers b) (quote_errors b)
  | QFulfilled =>
      match quote_pending b with
      | O => b
      | S p => mkQuoteButton "💡" p (quote_timers b) (quote_errors b)
      end
  | QRejected =>
      match quote_pending b with
      | O => b
      | S p => mkQuoteButton "❌" p (S (quote_timers b)) (S (quote_errors b))
      end
  | QTimeout =>
      match quote_timers b with
      | O => b
      | S t => mkQuoteButton "💡" (quote_pending b) t (quote_errors b)
      end
  end.

(** A button on which nothing is awaited and no timeout is due. *)
Definition quote_idle (b : QuoteButton) : Prop :=
  quote_pending b = 0%nat ∧ quote_timers b = 0%nat.

(** The button of a note whose text was [t0] when the listener was
    installed, after the events [evs]. *)
Definition quote_run (t0 : string) (evs : list QuoteEvent) : QuoteButton :=
  foldl quote_step (mkQuoteButton t0 0 0 0) evs.

(** What the text of the button tells once it has been clicked: an
    hourglass is shown only while a call is awaited, a cross only while a
    timeout is due. *)
Definition quote_shows (b : QuoteButton) : Prop :=
  (quote_textContent b = "⌛" ∧ (0 < quote_pending b)%nat) ∨
  (quote_textContent b = "❌" ∧ (0 < quote_timers b)%nat) ∨
  quote_textContent b = "💡".

(** ** Vocabulary of the further statements *)

(** Every [updatePosition] call of a trace was given two numbers. *)
Definition numeric_call (c : Call) : Prop :=
  match c with
  | CUpdatePosition _ x y => is_Some x ∧ is_Some y
  | _ => True
  end.

(** The order of [l] is kept among the elements with the same key. *)
Definition keeps_ties {A : Type} (key : A → Z) (l l' : list A) : Prop :=
  ∀ k, filter (λ a, key a = k) l' = filter (λ a, key a = k) l.


(** A layout with a board of 800 by 600 at (10, 20) and note elements of
    200 by 150, the first at (110, 70). *)
Definition roomy_layout : Layout :=
  mkLayout (mkRect 10 20 800 600) (λ _, mkRect 110 70 200 150) (λ _, 200) (λ _, 150).

(** An image file, as offered by the image input. *)
Definition image_file : File := mkFile "image/png" "data:image/png;base64,iVBORw0KGgo=".

(** Three notes, the first and the third created at the same time. *)
Definition world_ties : World :=
  mkWorld
    [sample_note "a" 300 40 (JStr "1970-01-01T00:00:00.005Z") (JStr "1970-01-01T00:00:00.005Z");
     sample_note "b" 10 10 (JStr "1970-01-01T00:00:00.003Z") (JStr "1970-01-01T00:00:00.003Z");
     sample_note "c" 50 60 (JStr "1970-01-01T00:00:00.005Z") (JStr "1970-01-01T00:00:00.005Z")]
    [("a", 0%nat); ("b", 1%nat); ("c", 2%nat)] [] [] [] [].

(** None of the elements [es] is being dragged. *)
Definition idle_at (es : list ElemId) (w : World) : Prop :=
  ∀ j el, j ∈ es → elements w !! j = Some el → isDragging el = false.

(** The element that [createElement] makes for the note at [l]. *)
Definition fresh_element (l : Loc) : Element :=
  mkElement l [] None JUndefined "" "" None None false false NaN NaN 0.

(** What [renderTimestamp] of each copy does to the element it is given. *)
Definition shown_timestamp (c : Copy) (ts : JsValue) (el : Element) : Element :=
  let text := (toLocaleDateString (new_Date ts) ++ [Lit " "] ++
               toLocaleTimeString (new_Date ts))%list in
  match c with
  | CreatedAtCopy =>
      if isNaN (getTime (new_Date ts)) then el else set_timestampEl (Some text) el
  | TimestampCopy => set_timestampEl (Some text) el
  end.

(** What [setupNoteEventListeners] of each copy does at once to the element
    it is given, for a note with the image [image] and the creation time
    [ts]. *)
Definition set_up (c : Copy) (image ts : JsValue) (el : Element) : Element :=
  let el := if truthy image then set_imagePreview image "block" el
            else set_imagePreview (imagePreview_src el) "none" el in
  let el := if truthy ts then shown_timestamp c ts el else el in
  set_listening true el.

(** A new element as the rendering functions leave it: listening, out of a
    drag, never asked to fade. *)
Definition ready (el : Element) : Prop :=
  listening el = true ∧ isDragging el = false ∧ animationend el = 0%nat.

(** [w'] has the elements of [w] untouched and, after them, one ready
    element for each note of [ls], in that order; these new elements are
    the last children of the board. *)
Definition adds_elements (ls : list Loc) (w w' : World) : Prop :=
  ∃ new, elements w' = (elements w ++ new)%list ∧
         el_note <$> new = ls ∧
         Forall ready new ∧
         board w' = (board w ++ seq (List.length (elements w)) (List.length ls))%list.

(** The note that a double click on the board makes in each copy: empty
    text, the position of the click relative to the board, the time of the
    click, an empty image. *)
Definition new_note (c : Copy) (k now : string) (ev : MouseEvent) (lay : Layout) : Note :=
  match c with
  | CreatedAtCopy =>
      mkNote k "" (Some (clientX ev - rect_left (boardRect lay)))
             (Some (clientY ev - rect_top (boardRect lay)))
             (JStr now) JUndefined (JStr "") JUndefined
  | TimestampCopy =>
      mkNote k "" (Some (clientX ev - rect_left (boardRect lay)))
             (Some (clientY ev - rect_top (boardRect lay)))
             JUndefined (JStr now) JUndefined (JStr "")
  end.

(** Every [updatePosition] call made so far was given two numbers. *)
Definition numeric (w : World) : Prop := Forall numeric_call (trace w).

(** What holds of every world a page goes through: the manager is a
    well-formed Map, the children of the board are elements that exist, a
    drag in progress has its offsets, and no [updatePosition] call was given
    anything but numbers. *)
Definition page_invariant (w : World) : Prop :=
  manager_wf w ∧ board_fresh w ∧ drag_defined w ∧ numeric w.

(** * Theorems *)

(** ** The date parser on sample strings *)

Example Date_parse_epoch : Date_parse "1970-01-01T00:00:00.000Z" = Some 0.
Proof. vm_compute. reflexivity. Qed.

Example Date_parse_2025 : Date_parse "2025-07-09T14:37:00.000Z" = Some 1752071820000.
Proof. vm_compute. reflexivity. Qed.

Example Date_parse_leap : Date_parse "2024-02-29T23:59:59.999Z" = Some 1709251199999.
Proof. vm_compute. reflexivity. Qed.

Example Date_parse_garbage : Date_parse "yesterday" = NaN.
Proof. vm_compute. reflexivity. Qed.

Example Date_parse_empty : Date_parse "" = NaN.
Proof. vm_compute. reflexivity. Qed.

(** A value that makes a valid date is the same date after [|| 0]. *)
Lemma new_Date_js_or (v : JsValue) :
  is_Some (new_Date v) → new_Date (js_or v (JNum 0)) = new_Date v.
Proof.
  intros Hv. unfold js_or. destruct (truthy v) eqn:Ht; [done|].
  destruct v as [| |n|s]; simpl in *.
  - by destruct Hv.
  - done.
  - apply negb_false_iff, Z.eqb_eq in Ht. by subst.
  - apply negb_false_iff, String.eqb_eq in Ht. subst.
    rewrite Date_parse_empty in Hv. by destruct Hv.
Qed.

(** A missing value is the epoch after [|| 0]. *)
Lemma new_Date_missing_or_0 : new_Date (js_or JUndefined (JNum 0)) = Some 0.
Proof. reflexivity. Qed.

(** ** The sort *)

Section ArraySortFacts.
Context {A : Type} (comparefn : A → A → JsNumber).

Lemma sort_insert_Permutation (a : A) (l : list A) :
  sort_insert comparefn a l ≡ₚ a :: l.
Proof.
  induction l as [|b l IH]; simpl; [done|].
  destruct (SortCompare comparefn a b <=? 0); [done|].
  rewrite IH. apply Permutation_swap.
Qed.

Lemma Array_sort_Permutation (l : list A) : Array_sort comparefn l ≡ₚ l.
Proof.
  induction l as [|a l IH]; simpl; [done|].
  by rewrite sort_insert_Permutation, IH.
Qed.

(** When the comparator is the difference of a key on the elements at
    hand, the result is ordered by that key. *)
Context (key : A → Z).

Local Abbreviation by_key := (by_key key).

Lemma sort_insert_sorted (a : A) (l : list A) :
  (∀ b, b ∈ l → SortCompare comparefn a b = key a - key b) →
  StronglySorted by_key l →
  StronglySorted by_key (sort_insert comparefn a l).
Proof.
  induction l as [|b l IH]; simpl; intros Hcmp Hs.
  - repeat constructor.
  - apply StronglySorted_cons in Hs as [Hb Hs].
    rewrite Hcmp by left.
    destruct (Z.leb_spec (key a - key b) 0) as [Hle|Hgt].
    + constructor; [by constructor|].
      constructor; [unfold by_key; lia|].
      eapply Forall_impl; [exact Hb|]. unfold by_key. intros; simpl in *; lia.
    + constructor.
      * apply IH; [|done]. intros b' Hb'. apply Hcmp. by right.
      * rewrite sort_insert_Permutation. constructor; [unfold by_key; lia|done].
Qed.

Lemma Array_sort_sorted (l : list A) :
  (∀ a b, a ∈ l → b ∈ l → SortCompare comparefn a b = key a - key b) →
  StronglySorted by_key (Array_sort comparefn l).
Proof.
  induction l as [|a l IH]; simpl; intros Hcmp; [constructor|].
  apply sort_insert_sorted.
  - intros b Hb. apply Hcmp; [by left|].
    right. by rewrite <- (Array_sort_Permutation l).
  - apply IH. intros ????. apply Hcmp; by right.
Qed.
End ArraySortFacts.

Lemma by_key_neg_flip {A} (key : A → Z) (a b : A) :
  by_key (λ x, - key x) a b ↔ flip (by_key key) a b.
Proof. unfold by_key, flip. lia. Qed.

Lemma NoDup_fmap_eq {A B} (f : A → B) (l : list A) (a b : A) :
  NoDup (f <$> l) → a ∈ l → b ∈ l → f a = f b → a = b.
Proof.
  induction l as [|c l IH]; simpl; intros Hnd Ha Hb Hf; [by inv Ha|].
  apply NoDup_cons in Hnd as [Hc Hnd].
  apply elem_of_cons in Ha as [->|Ha], Hb as [->|Hb]; [done| | |by apply IH].
  - exfalso. apply Hc. rewrite Hf. by apply list_elem_of_fmap_2.
  - exfalso. apply Hc. rewrite <- Hf. by apply list_elem_of_fmap_2.
Qed.

Lemma StronglySorted_mono {A} (R S : relation A) (l : list A) :
  (∀ a b, R a b → S a b) → StronglySorted R l → StronglySorted S l.
Proof.
  intros HRS. induction 1 as [|a l _ IH Ha]; constructor; [done|].
  eapply Forall_impl; [exact Ha|]. auto.
Qed.

(** With pairwise distinct keys, sorting by the difference of the keys and
    sorting by the opposite difference give reversed sequences. *)
Lemma Array_sort_reverse {A} (asc desc : A → A → JsNumber) (key : A → Z) (l : list A) :
  (∀ a b, a ∈ l → b ∈ l → asc a b = Some (key a - key b)) →
  (∀ a b, a ∈ l → b ∈ l → desc a b = Some (key b - key a)) →
  NoDup (key <$> l) →
  Array_sort asc l = reverse (Array_sort desc l).
Proof.
  intros Hasc Hdesc Hnd.
  assert (Transitive (by_key key)) by (intros ???; unfold by_key; lia).
  assert (Transitive (by_key (λ x, - key x))) by (intros ???; unfold by_key; lia).
  apply (Sorted_unique_strong (by_key key)).
  - intros a b Ha Hb Hab Hba.
    apply (NoDup_fmap_eq key l); [done| | |unfold by_key in *; lia].
    + by rewrite <- (Array_sort_Permutation asc l).
    + rewrite reverse_Permutation in Hb. by rewrite <- (Array_sort_Permutation desc l).
  - apply StronglySorted_Sorted, Array_sort_sorted.
    intros a b Ha Hb. unfold SortCompare. by rewrite Hasc.
  - assert (Sorted (flip (by_key (λ x, - key x))) (reverse (Array_sort desc l))) as Hs.
    { apply Sorted_reverse, StronglySorted_Sorted, Array_sort_sorted.
      intros a b Ha Hb. unfold SortCompare. rewrite Hdesc by done. lia. }
    eapply Sorted_StronglySorted in Hs.
    2:{ intros ???; unfold flip, by_key; lia. }
    apply StronglySorted_Sorted.
    eapply StronglySorted_mono; [|exact Hs].
    intros a b. unfold flip, by_key. lia.
  - by rewrite reverse_Permutation, !Array_sort_Permutation.
Qed.

(** ** What the handlers leave alone *)

Lemma dom_only_refl (w : World) : dom_only w w.
Proof. by repeat split. Qed.

Lemma dom_only_trans (w1 w2 w3 : World) :
  dom_only w1 w2 → dom_only w2 w3 → dom_only w1 w3.
Proof.
  intros (?&?&?&?&?) (?&?&?&?&?). repeat split; congruence.
Qed.

Lemma el_notes_alter (f : Element → Element) (e : ElemId) (es : list Element) :
  (∀ el, el_note (f el) = el_note el) →
  el_note <$> alter f e es = el_note <$> es.
Proof.
  intros Hf. rewrite (list_fmap_alter el_note f (λ x, x)).
  - by apply list_alter_id.
  - apply Forall_forall. intros; apply Hf.
Qed.

Lemma with_element_dom_only (e : ElemId) (f : Element → Element) (w : World) :
  (∀ el, el_note (f el) = el_note el) → dom_only w (with_element e f w).
Proof.
  intros Hf. repeat split. unfold el_notes; simpl. by apply el_notes_alter.
Qed.

Lemma log_dom_only (c : Call) (w : World) : dom_only w (log c w).
Proof. by repeat split. Qed.

Create HintDb frame.
#[local] Hint Resolve dom_only_refl with_element_dom_only log_dom_only : frame.

Lemma UiCreatedAt_renderTimestamp_dom_only (e : ElemId) (ts : JsValue) (w : World) :
  dom_only w (UiCreatedAt.renderTimestamp e ts w).
Proof.
  unfold UiCreatedAt.renderTimestamp.
  destruct (isNaN _); [auto with frame|].
  eapply dom_only_trans; [|by apply with_element_dom_only].
  repeat case_match; auto with frame.
Qed.

Lemma UiTimestamp_renderTimestamp_dom_only (e : ElemId) (ts : JsValue) (w : World) :
  dom_only w (UiTimestamp.renderTimestamp e ts w).
Proof.
  unfold UiTimestamp.renderTimestamp.
  eapply dom_only_trans; [|by apply with_element_dom_only].
  repeat case_match; auto with frame.
Qed.

Lemma UiCreatedAt_setup_dom_only (e : ElemId) (l : Loc) (w : World) :
  dom_only w (UiCreatedAt.setupNoteEventListeners e l w).
Proof.
  unfold UiCreatedAt.setupNoteEventListeners.
  eapply dom_only_trans; [|by apply with_element_dom_only].
  eapply dom_only_trans.
  2:{ case_match; [apply UiCreatedAt_renderTimestamp_dom_only|apply dom_only_refl]. }
  case_match; by apply with_element_dom_only.
Qed.

Lemma UiTimestamp_setup_dom_only (e : ElemId) (l : Loc) (w : World) :
  dom_only w (UiTimestamp.setupNoteEventListeners e l w).
Proof.
  unfold UiTimestamp.setupNoteEventListeners.
  eapply dom_only_trans; [|by apply with_element_dom_only].
  eapply dom_only_trans.
  2:{ case_match; [apply UiTimestamp_renderTimestamp_dom_only|apply dom_only_refl]. }
  case_match; by apply with_element_dom_only.
Qed.

(** ** The board while notes are rendered one after the other *)

Lemma omap_agree {A B} (f g : A → option B) (l : list A) :
  Forall (λ x, f x = g x) l → omap f l = omap g l.
Proof.
  induction 1 as [|x l Hx _ IH]; [done|].
  csimpl. rewrite Hx, IH. done.
Qed.

Lemma filter_all {A} (P : A → Prop) `{∀ x, Decision (P x)} (l : list A) :
  Forall P l → filter P l = l.
Proof.
  induction 1 as [|x l Hx _ IH]; [done|].
  rewrite filter_cons, decide_True by done. by rewrite IH.
Qed.

Lemma board_notes_el_notes (w : World) :
  board_notes w = omap (λ e, el_notes w !! e) (board w).
Proof.
  unfold board_notes, el_notes. apply omap_agree, Forall_forall.
  intros e _. by rewrite list_lookup_fmap.
Qed.

Lemma board_append (w w' : World) (l : Loc) :
  board_fresh w →
  el_notes w' = (el_notes w ++ [l])%list →
  board w' = (filter (λ c, c ≠ List.length (elements w)) (board w)
              ++ [List.length (elements w)])%list →
  board_notes w' = (board_notes w ++ [l])%list ∧ board_fresh w'.
Proof.
  intros Hfresh Hnotes Hboard.
  assert (List.length (el_notes w) = List.length (elements w)) as Hlen
    by apply length_fmap.
  assert (List.length (elements w') = S (List.length (elements w))) as Hlen'.
  { rewrite <- (length_fmap el_note (elements w')).
    fold (el_notes w'). rewrite Hnotes, length_app, Hlen. simpl. lia. }
  assert (filter (λ c, c ≠ List.length (elements w)) (board w) = board w) as Hfilter.
  { apply filter_all, Forall_forall. intros c Hc.
    unfold board_fresh in Hfresh. rewrite Forall_forall in Hfresh.
    specialize (Hfresh c Hc). lia. }
  rewrite Hfilter in Hboard. split.
  - rewrite !board_notes_el_notes, Hboard, Hnotes, omap_app. f_equal.
    + apply omap_agree. eapply Forall_impl; [exact Hfresh|].
      intros c Hc. simpl in Hc. rewrite lookup_app_l; [done|lia].
    + simpl. rewrite <- Hlen.
      by rewrite list_lookup_middle.
  - unfold board_fresh. rewrite Hboard, Hlen'. apply Forall_app. split.
    + eapply Forall_impl; [exact Hfresh|]. intros; simpl in *; lia.
    + repeat constructor.
Qed.

Lemma UiCreatedAt_place_spec (o : Z) (w : World) (l : Loc) :
  let st := UiCreatedAt.place (o, w) l in
  st.1 = o + 160 ∧
  heap st.2 = alter (updatePosition (Some 20) (Some o)) l (heap w) ∧
  manager st.2 = manager w ∧
  readers st.2 = readers w ∧
  el_notes st.2 = (el_notes w ++ [l])%list ∧
  board st.2 = (filter (λ c, c ≠ List.length (elements w)) (board w)
                ++ [List.length (elements w)])%list.
Proof.
  unfold UiCreatedAt.place, createElement. cbn zeta.
  set (w1 := note_updatePosition l _ _ w).
  set (e := List.length (elements w1)).
  set (w2 := set_elements _ w1).
  set (w3 := UiCreatedAt.setupNoteEventListeners e l w2).
  set (w4 := with_element e _ w3).
  set (w5 := appendChild e w4).
  set (w6 := UiCreatedAt.renderTimestamp e _ w5).
  destruct (UiCreatedAt_setup_dom_only e l w2) as (H3h&H3m&H3b&H3r&H3n).
  destruct (UiCreatedAt_renderTimestamp_dom_only e
              (prop createdAt w5 l) w5) as (H6h&H6m&H6b&H6r&H6n).
  fold w3 in H3h, H3m, H3b, H3r, H3n. fold w6 in H6h, H6m, H6b, H6r, H6n.
  assert (el_notes w4 = el_notes w3) as H4n.
  { unfold w4, el_notes. simpl. by apply el_notes_alter. }
  simpl. repeat split.
  - rewrite H6h. transitivity (heap w3); [reflexivity|]. by rewrite H3h.
  - rewrite H6m. transitivity (manager w3); [reflexivity|]. by rewrite H3m.
  - rewrite H6r. transitivity (readers w3); [reflexivity|]. by rewrite H3r.
  - rewrite H6n. transitivity (el_notes w4); [reflexivity|].
    rewrite H4n, H3n. unfold el_notes, w2. simpl. by rewrite fmap_app.
  - rewrite H6b.
    transitivity (filter (λ c, c ≠ e) (board w3) ++ [e])%list; [reflexivity|].
    by rewrite H3b.
Qed.

Lemma UiTimestamp_place_spec (w : World) (l : Loc) :
  let w' := UiTimestamp.place w l in
  heap w' = heap w ∧
  manager w' = manager w ∧
  readers w' = readers w ∧
  trace w' = trace w ∧
  el_notes w' = (el_notes w ++ [l])%list ∧
  board w' = (filter (λ c, c ≠ List.length (elements w)) (board w)
              ++ [List.length (elements w)])%list.
Proof.
  unfold UiTimestamp.place, createElement. cbn zeta.
  set (e := List.length (elements w)).
  set (w2 := set_elements _ w).
  destruct (UiTimestamp_setup_dom_only e l w2) as (H3h&H3m&H3b&H3r&H3n).
  set (w3 := UiTimestamp.setupNoteEventListeners e l w2) in *.
  simpl. repeat split.
  - transitivity (heap w3); [reflexivity|]. by rewrite H3h.
  - transitivity (manager w3); [reflexivity|]. by rewrite H3m.
  - transitivity (readers w3); [reflexivity|]. by rewrite H3r.
  - unfold w3, UiTimestamp.setupNoteEventListeners, UiTimestamp.renderTimestamp.
    repeat case_match; reflexivity.
  - transitivity (el_notes w3); [reflexivity|].
    rewrite H3n. unfold el_notes, w2. simpl. by rewrite fmap_app.
  - transitivity (filter (λ c, c ≠ e) (board w3) ++ [e])%list; [reflexivity|].
    by rewrite H3b.
Qed.

(** ** The heap while the first copy lays the notes out *)

Lemma stack_heap_fmap {B} (f : Note → B) (o : Z) (ls : list Loc) (h : Heap) :
  (∀ nx ny n, f (updatePosition nx ny n) = f n) →
  f <$> stack_heap o ls h = f <$> h.
Proof.
  intros Hf. revert o h. induction ls as [|l ls IH]; intros o h; simpl; [done|].
  rewrite IH. rewrite (list_fmap_alter f _ (λ x, x)).
  - by apply list_alter_id.
  - apply Forall_forall. intros; apply Hf.
Qed.

Lemma stack_heap_length (o : Z) (ls : list Loc) (h : Heap) :
  List.length (stack_heap o ls h) = List.length h.
Proof.
  revert o h. induction ls as [|l ls IH]; intros o h; simpl; [done|].
  by rewrite IH, length_alter.
Qed.

Lemma stack_heap_lookup_notin (o : Z) (ls : list Loc) (h : Heap) (l : Loc) :
  l ∉ ls → stack_heap o ls h !! l = h !! l.
Proof.
  revert o h. induction ls as [|l' ls IH]; intros o h Hl; simpl; [done|].
  apply not_elem_of_cons in Hl as [Hne Hl].
  rewrite IH by done. by apply list_lookup_alter_ne.
Qed.

Lemma stack_heap_lookup (o : Z) (ls : list Loc) (h : Heap) (i : nat) (l : Loc) (n : Note) :
  NoDup ls → ls !! i = Some l → h !! l = Some n →
  stack_heap o ls h !! l =
    Some (updatePosition (Some 20) (Some (o + 160 * Z.of_nat i)) n).
Proof.
  revert o h i. induction ls as [|l' ls IH]; intros o h i Hnd Hi Hn; [done|].
  apply NoDup_cons in Hnd as [Hl' Hnd]. simpl.
  destruct i as [|i]; simpl in Hi.
  - inv Hi. rewrite stack_heap_lookup_notin by done.
    rewrite list_lookup_alter_eq, Hn. simpl. do 3 f_equal. lia.
  - assert (l ≠ l') as Hne.
    { intros ->. apply Hl'. by eapply list_elem_of_lookup_2. }
    rewrite (IH (o + 160) _ i Hnd Hi); [do 3 f_equal; lia|].
    by rewrite list_lookup_alter_ne.
Qed.

(** ** What a sort does to the world, in each copy *)

Lemma UiCreatedAt_fold_place (ls : list Loc) (o : Z) (w : World) :
  board_fresh w →
  let st := foldl UiCreatedAt.place (o, w) ls in
  manager st.2 = manager w ∧
  readers st.2 = readers w ∧
  heap st.2 = stack_heap o ls (heap w) ∧
  board_notes st.2 = (board_notes w ++ ls)%list ∧
  board_fresh st.2.
Proof.
  revert o w. induction ls as [|l ls IH]; intros o w Hfresh.
  { simpl. by rewrite app_nil_r. }
  cbn [foldl]. cbv zeta.
  pose proof (UiCreatedAt_place_spec o w l) as Hp. cbv zeta in Hp.
  destruct (UiCreatedAt.place (o, w) l) as [o' w'] eqn:Hst. cbn [fst snd] in Hp.
  destruct Hp as (-> & Hh & Hm & Hr & Hn & Hb).
  destruct (board_append w w' l Hfresh Hn Hb) as [Hbn Hfresh'].
  destruct (IH (o + 160) w' Hfresh') as (IHm & IHr & IHh & IHb & IHf).
  repeat split; [congruence|congruence| | |done].
  - by rewrite IHh, Hh.
  - by rewrite IHb, Hbn, <- app_assoc.
Qed.

Lemma UiTimestamp_fold_place (ls : list Loc) (w : World) :
  board_fresh w →
  let w' := foldl UiTimestamp.place w ls in
  manager w' = manager w ∧
  readers w' = readers w ∧
  heap w' = heap w ∧
  trace w' = trace w ∧
  board_notes w' = (board_notes w ++ ls)%list ∧
  board_fresh w'.
Proof.
  revert w. induction ls as [|l ls IH]; intros w Hfresh.
  { simpl. by rewrite app_nil_r. }
  cbn [foldl]. cbv zeta.
  destruct (UiTimestamp_place_spec w l) as (Hh & Hm & Hr & Ht & Hn & Hb).
  destruct (board_append w _ l Hfresh Hn Hb) as [Hbn Hfresh'].
  destruct (IH _ Hfresh') as (IHm & IHr & IHh & IHt & IHb & IHf).
  repeat split; [congruence|congruence|congruence|congruence| |done].
  by rewrite IHb, Hbn, <- app_assoc.
Qed.

Lemma board_fresh_empty (w : World) : board_fresh (set_board [] w).
Proof. constructor. Qed.

Lemma UiCreatedAt_sort_spec (order : Order) (w : World) :
  let sorted := Array_sort (UiCreatedAt.comparefn w order) (getAllNotes (manager w)) in
  let w' := UiCreatedAt.sortNotesByTimestamp order w in
  manager w' = manager w ∧
  readers w' = readers w ∧
  heap w' = stack_heap 20 sorted (heap w) ∧
  board_notes w' = sorted.
Proof.
  unfold UiCreatedAt.sortNotesByTimestamp. cbn zeta.
  destruct (UiCreatedAt_fold_place
              (Array_sort (UiCreatedAt.comparefn w order) (getAllNotes (manager w)))
              20 (set_board [] w) (board_fresh_empty w)) as (Hm & Hr & Hh & Hb & _).
  by repeat split.
Qed.

Lemma UiTimestamp_sort_spec (order : Order) (w : World) :
  let sorted := Array_sort (UiTimestamp.comparefn w order) (getAllNotes (manager w)) in
  let w' := UiTimestamp.sortNotesByTimestamp order w in
  manager w' = manager w ∧
  readers w' = readers w ∧
  heap w' = heap w ∧
  trace w' = trace w ∧
  board_notes w' = sorted.
Proof.
  unfold UiTimestamp.sortNotesByTimestamp. cbn zeta.
  destruct (UiTimestamp_fold_place
              (Array_sort (UiTimestamp.comparefn w order) (getAllNotes (manager w)))
              (set_board [] w) (board_fresh_empty w)) as (Hm & Hr & Hh & Ht & Hb & _).
  by repeat split.
Qed.

Lemma manager_wf_NoDup (w : World) :
  manager_wf w → NoDup (getAllNotes (manager w)).
Proof.
  intros [Hnd Hid]. unfold getAllNotes.
  apply NoDup_fmap_2_strong; [|by eapply NoDup_fmap_1].
  intros [k1 l1] [k2 l2] H1 H2. simpl. intros <-.
  destruct (Hid _ _ H1) as (n1 & Hn1 & <-).
  destruct (Hid _ _ H2) as (n2 & Hn2 & <-).
  congruence.
Qed.

(** ** The sort: order *)

Lemma comparefn_key (c : Copy) (w : World) (a b : Loc) (ta tb : Z) :
  creation_time c w a = Some ta →
  creation_time c w b = Some tb →
  match c with
  | CreatedAtCopy => UiCreatedAt.comparefn
  | TimestampCopy => UiTimestamp.comparefn
  end w Asc a b = Some (ta - tb) ∧
  match c with
  | CreatedAtCopy => UiCreatedAt.comparefn
  | TimestampCopy => UiTimestamp.comparefn
  end w Desc a b = Some (tb - ta).
Proof.
  unfold creation_time. destruct c; simpl; intros Ha Hb.
  - unfold UiCreatedAt.comparefn. by rewrite Ha, Hb.
  - unfold UiTimestamp.comparefn.
    rewrite !new_Date_js_or by (unfold getTime in *; by eauto).
    by rewrite Ha, Hb.
Qed.

Lemma board_notes_sort (c : Copy) (order : Order) (w : World) :
  board_notes (sortNotesByTimestamp c order w) =
  Array_sort (match c with
              | CreatedAtCopy => UiCreatedAt.comparefn
              | TimestampCopy => UiTimestamp.comparefn
              end w order) (getAllNotes (manager w)).
Proof.
  destruct c; simpl.
  - apply UiCreatedAt_sort_spec.
  - apply UiTimestamp_sort_spec.
Qed.

(** C6: when the creation times of the notes in the manager are all valid
    and pairwise distinct, the sequence of notes on the board after an
    ascending sort is the reverse of the sequence after a descending sort of
    the same notes (in both copies of ui.js). *)
Theorem ascending_is_reverse_of_descending (c : Copy) (w : World) :
  (∀ l, l ∈ getAllNotes (manager w) → is_Some (creation_time c w l)) →
  NoDup (creation_time c w <$> getAllNotes (manager w)) →
  board_notes (sortNotesByTimestamp c Asc w) =
  reverse (board_notes (sortNotesByTimestamp c Desc w)).
Proof.
  intros Hvalid Hdistinct. rewrite !board_notes_sort.
  set (key := λ l, default 0 (creation_time c w l)).
  assert (∀ l, l ∈ getAllNotes (manager w) → creation_time c w l = Some (key l)) as Hkey.
  { intros l Hl. destruct (Hvalid l Hl) as [t Ht]. unfold key. by rewrite Ht. }
  apply (Array_sort_reverse _ _ key).
  - intros a b Ha Hb. by apply comparefn_key; apply Hkey.
  - intros a b Ha Hb. by apply comparefn_key; apply Hkey.
  - apply NoDup_fmap_2_strong; [|by eapply NoDup_fmap_1].
    intros a b Ha Hb Hab.
    apply (NoDup_fmap_eq (creation_time c w) (getAllNotes (manager w))); [done..|].
    by rewrite !Hkey, Hab.
Qed.

Lemma ascending_is_reverse_of_descending_witness :
  board_notes (sortNotesByTimestamp CreatedAtCopy Asc world_two) =
  reverse (board_notes (sortNotesByTimestamp CreatedAtCopy Desc world_two)).
Proof.
  apply ascending_is_reverse_of_descending.
  - intros l Hl. vm_compute in Hl.
    repeat (apply elem_of_cons in Hl as [->|Hl]); [vm_compute; eauto..|].
    by apply elem_of_nil in Hl.
  - vm_compute. apply (bool_decide_unpack _). vm_compute. exact I.
Defined.

(** C9: a sort, in either order and in both copies of ui.js, leaves the
    manager as it was, so the ids in the collection are the same before and
    after, and changes nothing of a note but its position. *)
Theorem sort_preserves_membership (c : Copy) (order : Order) (w : World) :
  manager (sortNotesByTimestamp c order w) = manager w ∧
  manager_ids (sortNotesByTimestamp c order w) = manager_ids w ∧
  forget_position <$> heap (sortNotesByTimestamp c order w) =
  forget_position <$> heap w.
Proof.
  assert (manager (sortNotesByTimestamp c order w) = manager w ∧
          forget_position <$> heap (sortNotesByTimestamp c order w) =
          forget_position <$> heap w) as [Hm Hh].
  { destruct c; simpl.
    - destruct (UiCreatedAt_sort_spec order w) as (Hm & _ & Hh & _).
      split; [done|]. rewrite Hh. by apply stack_heap_fmap.
    - destruct (UiTimestamp_sort_spec order w) as (Hm & _ & Hh & _).
      split; [done|]. by rewrite Hh. }
  unfold manager_ids. by rewrite Hm.
Qed.

(** ** The sort: a note without creation time *)

Lemma UiTimestamp_comparefn_epoch (w : World) (a b : Loc) :
  (prop timestamp w a = JUndefined ∨ is_Some (creation_time TimestampCopy w a)) →
  (prop timestamp w b = JUndefined ∨ is_Some (creation_time TimestampCopy w b)) →
  UiTimestamp.comparefn w Asc a b =
    Some (time_or_epoch TimestampCopy w a - time_or_epoch TimestampCopy w b) ∧
  UiTimestamp.comparefn w Desc a b =
    Some (time_or_epoch TimestampCopy w b - time_or_epoch TimestampCopy w a).
Proof.
  assert (∀ l, prop timestamp w l = JUndefined ∨ is_Some (creation_time TimestampCopy w l) →
               getTime (new_Date (js_or (prop timestamp w l) (JNum 0))) =
               Some (time_or_epoch TimestampCopy w l)) as Hkey.
  { intros l [Hl|[t Hl]]; unfold time_or_epoch, creation_time in *; simpl in *.
    - by rewrite Hl.
    - unfold getTime in *. rewrite new_Date_js_or by eauto.
      destruct (prop timestamp w l); simpl in *; by rewrite ?Hl. }
  intros Ha Hb. unfold UiTimestamp.comparefn.
  by rewrite (Hkey a Ha), (Hkey b Hb).
Qed.

(** In the copy that reads [timestamp], a note without one is ordered as if
    it had been created at the epoch: first among later notes in ascending
    order, last among them in descending order. *)
Lemma UiTimestamp_sort_missing_as_epoch (w : World) :
  (∀ l, l ∈ getAllNotes (manager w) →
        prop timestamp w l = JUndefined ∨ is_Some (creation_time TimestampCopy w l)) →
  StronglySorted (by_key (time_or_epoch TimestampCopy w))
    (board_notes (UiTimestamp.sortNotesByTimestamp Asc w)) ∧
  StronglySorted (flip (by_key (time_or_epoch TimestampCopy w)))
    (board_notes (UiTimestamp.sortNotesByTimestamp Desc w)).
Proof.
  intros Hnotes.
  destruct (UiTimestamp_sort_spec Asc w) as (_ & _ & _ & _ & ->).
  destruct (UiTimestamp_sort_spec Desc w) as (_ & _ & _ & _ & ->).
  split.
  - apply Array_sort_sorted. intros a b Ha Hb. unfold SortCompare.
    by destruct (UiTimestamp_comparefn_epoch w a b) as [-> _]; auto.
  - eapply StronglySorted_mono; [intros a b; apply by_key_neg_flip|].
    apply Array_sort_sorted. intros a b Ha Hb. unfold SortCompare.
    destruct (UiTimestamp_comparefn_epoch w a b) as [_ ->]; auto. lia.
Qed.

Example UiTimestamp_missing_first_ascending :
  board_notes (UiTimestamp.sortNotesByTimestamp Asc world_missing_last) = [1; 0]%nat.
Proof. vm_compute. reflexivity. Qed.

Example UiTimestamp_missing_last_descending :
  board_notes (UiTimestamp.sortNotesByTimestamp Desc world_missing_first) = [1; 0]%nat.
Proof. vm_compute. reflexivity. Qed.

(** C1, on the copy of ui.js that reads [createdAt] (lines 244-251): with a
    note created 5 ms after the epoch and a note without [createdAt], the
    comparator is NaN, the sort leaves the two in the order it found them,
    and the note without creation time ends last in ascending order and
    first in descending order: not where a creation time of 0 would put
    it. *)
Theorem createdAt_copy_missing_not_as_epoch :
  UiCreatedAt.comparefn world_missing_last Asc 0%nat 1%nat = NaN ∧
  board_notes (UiCreatedAt.sortNotesByTimestamp Asc world_missing_last) = [0; 1]%nat ∧
  time_or_epoch CreatedAtCopy world_missing_last <$> [0; 1]%nat = [5; 0] ∧
  board_notes (UiCreatedAt.sortNotesByTimestamp Desc world_missing_first) = [0; 1]%nat ∧
  time_or_epoch CreatedAtCopy world_missing_first <$> [0; 1]%nat = [0; 5].
Proof. vm_compute. repeat split; reflexivity. Qed.

(** ** The sort: layout *)

(** In the copy that reads [createdAt], a sort stacks the notes: the [i]-th
    note on the board is at x = 20 and y = 20 + 160 i, and the board shows
    every note of the manager. *)
Lemma UiCreatedAt_sort_stacks (order : Order) (w : World) :
  manager_wf w →
  board_notes (UiCreatedAt.sortNotesByTimestamp order w) ≡ₚ getAllNotes (manager w) ∧
  ∀ i l, board_notes (UiCreatedAt.sortNotesByTimestamp order w) !! i = Some l →
    ∃ n, heap (UiCreatedAt.sortNotesByTimestamp order w) !! l = Some n ∧
         note_x n = Some 20 ∧ note_y n = Some (20 + 160 * Z.of_nat i).
Proof.
  intros Hwf.
  destruct (UiCreatedAt_sort_spec order w) as (_ & _ & Hh & Hb).
  rewrite Hb, Hh. split; [apply Array_sort_Permutation|].
  intros i l Hi.
  assert (l ∈ getAllNotes (manager w)) as Hl.
  { rewrite <- (Array_sort_Permutation (UiCreatedAt.comparefn w order)).
    by eapply list_elem_of_lookup_2. }
  apply list_elem_of_fmap in Hl as ([k l'] & -> & Hkl).
  destruct Hwf as [Hnd Hid]. destruct (Hid _ _ Hkl) as (n & Hn & _).
  eexists. split.
  - apply stack_heap_lookup; [|exact Hi|exact Hn].
    rewrite Array_sort_Permutation. by apply manager_wf_NoDup.
  - done.
Qed.

Lemma world_two_wf : manager_wf world_two.
Proof.
  split.
  - apply (bool_decide_unpack _). vm_compute. exact I.
  - intros k l Hkl. vm_compute in Hkl.
    repeat (apply elem_of_cons in Hkl as [[= -> ->]|Hkl]); [vm_compute; eauto..|].
    by apply elem_of_nil in Hkl.
Qed.

Example UiCreatedAt_sort_stacks_two :
  (λ w, (board_notes w, coord note_x w <$> board_notes w, coord note_y w <$> board_notes w))
    (UiCreatedAt.sortNotesByTimestamp Desc world_two) =
  ([0; 1]%nat, [Some 20; Some 20], [Some 20; Some 180]).
Proof. vm_compute. reflexivity. Qed.

(** C4, on the copy of ui.js that reads [timestamp] (lines 603-623): a sort
    of two notes at (300, 40) and (10, 10) calls [updatePosition] for
    neither; the board shows them in sorted order and each is where it
    was, so their x differ and nothing is stacked. *)
Theorem timestamp_copy_sort_does_not_stack :
  (λ w, (board_notes w, coord note_x w <$> board_notes w, coord note_y w <$> board_notes w,
         trace w))
    (UiTimestamp.sortNotesByTimestamp Asc world_two) =
  ([1; 0]%nat, [Some 10; Some 300], [Some 10; Some 40], []).
Proof. vm_compute. reflexivity. Qed.

(** In that copy no sort moves a note. *)
Lemma UiTimestamp_sort_moves_nothing (order : Order) (w : World) :
  heap (UiTimestamp.sortNotesByTimestamp order w) = heap w ∧
  trace (UiTimestamp.sortNotesByTimestamp order w) = trace w.
Proof. by destruct (UiTimestamp_sort_spec order w) as (_ & _ & -> & -> & _). Qed.

(** ** Rendering a timestamp *)

(** In the copy that reads [createdAt], a timestamp that is not a valid date
    is logged and nothing is displayed: the element is left as it was. *)
Lemma UiCreatedAt_renderTimestamp_invalid (e : ElemId) (ts : JsValue) (w : World) :
  isNaN (getTime (new_Date ts)) = true →
  UiCreatedAt.renderTimestamp e ts w = log (CConsoleWarn "Invalid timestamp:" ts) w.
Proof. intros Hts. unfold UiCreatedAt.renderTimestamp. by rewrite Hts. Qed.

Example UiCreatedAt_renders_no_invalid_date :
  (λ w, (timestampEl <$> elements w, trace w)) (UiCreatedAt.renderAllNotes world_yesterday) =
  ([None], [CConsoleWarn "Invalid timestamp:" (JStr "yesterday")]).
Proof. vm_compute. reflexivity. Qed.

(** In the copy that reads [timestamp], a timestamp that is not a valid date
    is displayed as the text of an invalid date, and nothing is logged. *)
Lemma UiTimestamp_renderTimestamp_invalid (e : ElemId) (el : Element) (ts : JsValue)
    (w : World) :
  isNaN (getTime (new_Date ts)) = true →
  elements w !! e = Some el →
  timestampEl <$> elements (UiTimestamp.renderTimestamp e ts w) !! e =
    Some (Some [Lit "Invalid Date"; Lit " "; Lit "Invalid Date"]) ∧
  trace (UiTimestamp.renderTimestamp e ts w) = trace w.
Proof.
  intros Hts He. unfold UiTimestamp.renderTimestamp, getTime in *.
  destruct (new_Date ts); [done|]. rewrite He. simpl.
  destruct (timestampEl el); simpl.
  - by rewrite list_lookup_alter_eq, He.
  - by rewrite !list_lookup_alter_eq, He.
Qed.

(** C5, on the copy of ui.js that reads [timestamp] (lines 579-596):
    rendering a note whose timestamp is the string "yesterday" logs nothing
    and gives the timestamp element the text "Invalid Date Invalid Date". *)
Theorem timestamp_copy_shows_invalid_date :
  (λ w, (timestampEl <$> elements w, trace w)) (UiTimestamp.renderAllNotes world_yesterday) =
  ([Some [Lit "Invalid Date"; Lit " "; Lit "Invalid Date"]], []).
Proof. vm_compute. reflexivity. Qed.

(** ** Dragging *)

(** C2 as stated fails when the note is wider than the board: the board is
    100 wide, the note 200, the drag puts the note at x = 0, and 0 is not
    at most 100 - 200. *)
Lemma drag_note_wider_than_board :
  trace (mousemove_listener 0%nat sample_move wide_layout world_dragging) =
    [CUpdatePosition 0%nat (Some 0) (Some 50)] ∧
  ¬ (0 ≤ 0 ≤ rect_width (boardRect wide_layout) - offsetWidth wide_layout 0%nat).
Proof. split; [vm_compute; reflexivity|]. vm_compute. intros [_ H]. by apply H. Qed.

(** C2, amended: for a mouse move during an active drag of a note, the
    position (x, y) passed to [updatePosition] satisfies
    0 <= x <= max(0, boardWidth - noteWidth) and
    0 <= y <= max(0, boardHeight - noteHeight): the interval of the claim
    when the note fits in the board, and 0 when it does not.  A drag is
    active when [isDragging] is set; the offsets are then numbers, as
    [drag_defined] records for every world the handlers reach. *)
Theorem drag_position_clamped (w : World) (e : ElemId) (el : Element)
    (ev : MouseEvent) (lay : Layout) (ox oy : Z) :
  elements w !! e = Some el →
  isDragging el = true →
  dragOffsetX el = Some ox →
  dragOffsetY el = Some oy →
  ∃ x y,
    mousemove_listener e ev lay w = note_updatePosition (el_note el) (Some x) (Some y) w ∧
    0 ≤ x ≤ Z.max 0 (rect_width (boardRect lay) - offsetWidth lay e) ∧
    0 ≤ y ≤ Z.max 0 (rect_height (boardRect lay) - offsetHeight lay e).
Proof.
  intros He Hdrag Hox Hoy.
  unfold mousemove_listener, drag_position. rewrite He, Hdrag, Hox, Hoy. simpl.
  eexists _, _. split; [reflexivity|]. lia.
Qed.

Lemma drag_position_clamped_witness :
  (elements world_dragging !! 0%nat = Some (element_of world_dragging 0) ∧
   isDragging (element_of world_dragging 0) = true ∧
   dragOffsetX (element_of world_dragging 0) = Some 5 ∧
   dragOffsetY (element_of world_dragging 0) = Some 5) ∧
  ∃ x y,
    mousemove_listener 0%nat sample_move wide_layout world_dragging =
      note_updatePosition (el_note (element_of world_dragging 0)) (Some x) (Some y)
        world_dragging ∧
    0 ≤ x ≤ Z.max 0 (rect_width (boardRect wide_layout) - offsetWidth wide_layout 0%nat) ∧
    0 ≤ y ≤ Z.max 0 (rect_height (boardRect wide_layout) - offsetHeight wide_layout 0%nat).
Proof.
  split; [repeat split; vm_compute; reflexivity|].
  apply (drag_position_clamped world_dragging 0%nat (element_of world_dragging 0)
           sample_move wide_layout 5 5); vm_compute; reflexivity.
Defined.

(** When no element is being dragged, a mouse move on the document changes
    nothing, in both copies. *)
Lemma document_mousemove_no_drag (c : Copy) (w : World) (ev : MouseEvent) (lay : Layout) :
  no_drag w → handle c (EMouseMove ev lay) w = w.
Proof.
  intros Hno.
  assert (document_mousemove ev lay w = w) as Hdoc.
  { unfold document_mousemove. generalize (listeners w) as es.
    induction es as [|e' es IH]; simpl; [done|].
    unfold mousemove_listener at 2.
    destruct (elements w !! e') as [el'|] eqn:He'; [|done].
    by rewrite (Hno _ _ He'). }
  by destruct c.
Qed.

(** C10: a mouse move that reaches the listener of an element whose
    [isDragging] is false changes nothing: the listener returns at once, no
    [updatePosition] call is made and the note is where it was. *)
Theorem mousemove_without_drag (w : World) (e : ElemId) (el : Element)
    (ev : MouseEvent) (lay : Layout) :
  elements w !! e = Some el →
  isDragging el = false →
  mousemove_listener e ev lay w = w.
Proof.
  intros He Hdrag. unfold mousemove_listener. by rewrite He, Hdrag.
Qed.

Lemma mousemove_without_drag_witness :
  (elements world_rendered !! 0%nat = Some (element_of world_rendered 0) ∧
   isDragging (element_of world_rendered 0) = false) ∧
  mousemove_listener 0%nat sample_move wide_layout world_rendered = world_rendered.
Proof.
  split; [split; vm_compute; reflexivity|].
  apply (mousemove_without_drag world_rendered 0%nat (element_of world_rendered 0));
    vm_compute; reflexivity.
Defined.

(** ** What each event can change *)

Lemma forget_position_alter (nx ny : JsNumber) (l : Loc) (h : Heap) :
  forget_position <$> alter (updatePosition nx ny) l h = forget_position <$> h.
Proof.
  rewrite (list_fmap_alter forget_position _ (λ x, x)).
  - by apply list_alter_id.
  - by apply Forall_forall.
Qed.

Lemma document_mousemove_frame (ev : MouseEvent) (lay : Layout) (w : World) :
  manager (document_mousemove ev lay w) = manager w ∧
  readers (document_mousemove ev lay w) = readers w ∧
  elements (document_mousemove ev lay w) = elements w ∧
  board (document_mousemove ev lay w) = board w ∧
  forget_position <$> heap (document_mousemove ev lay w) = forget_position <$> heap w.
Proof.
  unfold document_mousemove. generalize (listeners w) as es. intros es.
  revert w. induction es as [|e es IH]; intros w; [done|].
  cbn [foldl].
  destruct (IH (mousemove_listener e ev lay w)) as (Hm & Hr & He & Hb & Hh).
  rewrite Hm, Hr, He, Hb, Hh. unfold mousemove_listener.
  destruct (elements w !! e) as [el|]; [|done].
  destruct (isDragging el); [|done]. simpl.
  destruct (drag_position el e ev lay) as [newX newY]. simpl.
  repeat split. apply forget_position_alter.
Qed.

Lemma document_mouseup_frame (w : World) :
  dom_only w (document_mouseup w) ∧ trace (document_mouseup w) = trace w.
Proof.
  unfold document_mouseup. generalize (listeners w) as es. intros es.
  revert w. induction es as [|e es IH]; intros w; [by split; [apply dom_only_refl|]|].
  cbn [foldl]. destruct (IH (mouseup_listener e w)) as [Hd Ht].
  assert (dom_only w (mouseup_listener e w) ∧ trace (mouseup_listener e w) = trace w)
    as [Hd' Ht'].
  { unfold mouseup_listener. destruct (elements w !! e) as [el|]; [|by split; [apply dom_only_refl|]].
    destruct (isDragging el); [|by split; [apply dom_only_refl|]].
    split; [|done].
    eapply dom_only_trans; by apply with_element_dom_only. }
  split; [by eapply dom_only_trans|congruence].
Qed.

Lemma animationend_listener_frame (e : ElemId) (w : World) :
  heap (animationend_listener e w) = heap w ∧
  readers (animationend_listener e w) = readers w ∧
  elements (animationend_listener e w) = elements w.
Proof.
  unfold animationend_listener.
  destruct (elements w !! e) as [el|]; [|done].
  by destruct (heap w !! el_note el).
Qed.

Lemma iter_animationend_frame (k : nat) (e : ElemId) (w : World) :
  heap (Nat.iter k (animationend_listener e) w) = heap w ∧
  readers (Nat.iter k (animationend_listener e) w) = readers w ∧
  elements (Nat.iter k (animationend_listener e) w) = elements w.
Proof.
  induction k as [|k (IHh & IHr & IHe)]; [done|]. simpl.
  destruct (animationend_listener_frame e (Nat.iter k (animationend_listener e) w))
    as (-> & -> & ->). done.
Qed.

Lemma dispatch_animationend_frame (e : ElemId) (w : World) :
  heap (dispatch_animationend e w) = heap w ∧
  readers (dispatch_animationend e w) = readers w ∧
  elements (dispatch_animationend e w) = elements w.
Proof.
  unfold dispatch_animationend. destruct (elements w !! e); [|done].
  apply iter_animationend_frame.
Qed.

Lemma mousedown_listener_frame (e : ElemId) (t : Target) (ev : MouseEvent)
    (lay : Layout) (w : World) :
  dom_only w (mousedown_listener e t ev lay w) ∧
  trace (mousedown_listener e t ev lay w) = trace w.
Proof.
  unfold mousedown_listener. destruct (is_control t).
  - split; [apply dom_only_refl|done].
  - split; [|done].
    eapply dom_only_trans; [|by apply with_element_dom_only].
    eapply dom_only_trans; by apply with_element_dom_only.
Qed.

Lemma deleteNote_frame (e : ElemId) (w : World) :
  dom_only w (deleteNote e w) ∧ trace (deleteNote e w) = trace w.
Proof.
  unfold deleteNote. split; [|done].
  eapply dom_only_trans; by apply with_element_dom_only.
Qed.

(** A pending read is started only for an image-typed first file. *)
Lemma imageInput_change_frame (c : Copy) (e : ElemId) (files : list File) (w : World) :
  let w' := match c with
            | CreatedAtCopy => UiCreatedAt.imageInput_change
            | TimestampCopy => UiTimestamp.imageInput_change
            end e files w in
  manager w' = manager w ∧ heap w' = heap w ∧ elements w' = elements w ∧
  (w' = w ∨
   ∃ file, files !! 0%nat = Some file ∧ is_image file = true ∧
           readers w' = (readers w ++ [mkReader e file])%list).
Proof.
  destruct c; simpl;
    unfold UiCreatedAt.imageInput_change, UiTimestamp.imageInput_change;
    (destruct (files !! 0%nat) as [file|] eqn:Hf; [|by auto]);
    (destruct (is_image file) eqn:Hi; [|by auto]);
    repeat split; right; by exists file.
Qed.

Lemma reader_onload_frame (c : Copy) (k : nat) (w : World) :
  let w' := match c with
            | CreatedAtCopy => UiCreatedAt.reader_onload
            | TimestampCopy => UiTimestamp.reader_onload
            end k w in
  manager w' = manager w ∧
  (readers w' = readers w ∨ readers w' = delete k (readers w)).
Proof.
  destruct c; simpl; unfold UiCreatedAt.reader_onload, UiTimestamp.reader_onload;
    (destruct (readers w !! k) as [r|] eqn:Hr; [|by auto]);
    simpl; destruct (elements w !! reader_element r); by auto.
Qed.

(** ** Deleting a note *)

Lemma filter_idemp {A} (P : A → Prop) `{∀ x, Decision (P x)} (l : list A) :
  filter P (filter P l) = filter P l.
Proof.
  apply filter_all, Forall_forall. intros x Hx.
  by apply list_elem_of_filter in Hx as [? _].
Qed.

Lemma concat_replicate_snoc {A} (k : nat) (x : list A) :
  concat (replicate (S k) x) = (concat (replicate k x) ++ x)%list.
Proof.
  induction k as [|k IH]; [simpl; by rewrite app_nil_r|].
  change (concat (replicate (S (S k)) x))
    with (x ++ concat (replicate (S k) x))%list.
  rewrite IH at 1. by rewrite app_assoc.
Qed.

Lemma iter_animationend_spec (k : nat) (e : ElemId) (el : Element) (n : Note) (w : World) :
  elements w !! e = Some el →
  heap w !! el_note el = Some n →
  trace (Nat.iter k (animationend_listener e) w) =
    (trace w ++ concat (replicate k [CElementRemove e; CRemoveNote (note_id n)]))%list ∧
  manager (Nat.iter (S k) (animationend_listener e) w) = Map_delete (note_id n) (manager w) ∧
  board (Nat.iter (S k) (animationend_listener e) w) = filter (λ c, c ≠ e) (board w).
Proof.
  intros He Hn.
  assert (∀ w', elements w' = elements w → heap w' = heap w →
                animationend_listener e w' =
                removeNote (note_id n) (element_remove e w')) as Hstep.
  { intros w' He' Hh'. unfold animationend_listener. by rewrite He', He, Hh', Hn. }
  induction k as [|k (IHt & IHm & IHb)].
  - simpl. rewrite Hstep by done. simpl. by rewrite app_nil_r.
  - destruct (iter_animationend_frame (S k) e w) as (Hh & _ & Hes).
    destruct (iter_animationend_frame k e w) as (Hh' & _ & Hes').
    split; [|split].
    + change (Nat.iter (S k) (animationend_listener e) w)
        with (animationend_listener e (Nat.iter k (animationend_listener e) w)).
      rewrite Hstep by done. rewrite concat_replicate_snoc.
      change (trace (removeNote ?i (element_remove ?x ?v)))
        with ((trace v ++ [CElementRemove x]) ++ [CRemoveNote i])%list.
      rewrite IHt. by rewrite <- !app_assoc.
    + change (Nat.iter (S (S k)) (animationend_listener e) w)
        with (animationend_listener e (Nat.iter (S k) (animationend_listener e) w)).
      rewrite Hstep by done.
      change (manager (removeNote ?i (element_remove ?x ?v)))
        with (Map_delete i (manager v)).
      rewrite IHm. apply filter_idemp.
    + change (Nat.iter (S (S k)) (animationend_listener e) w)
        with (animationend_listener e (Nat.iter (S k) (animationend_listener e) w)).
      rewrite Hstep by done.
      change (board (removeNote ?i (element_remove ?x ?v)))
        with (filter (λ c, c ≠ x) (board v)).
      rewrite IHb. apply filter_idemp.
Qed.

(** Of the events embedded here only [animationend] changes the manager. *)
Lemma handle_manager (c : Copy) (ev : Event) (w : World) :
  (∀ e, ev ≠ EAnimationEnd e) → manager (handle c ev w) = manager w.
Proof.
  intros Hev.
  destruct ev as [e|e|e t m lay|m lay| |e files|k|order].
  - destruct c; simpl; unfold UiCreatedAt.is_listening, UiTimestamp.is_listening;
      case_bool_decide; try done; apply deleteNote_frame.
  - by destruct (Hev e).
  - destruct c; simpl; unfold UiCreatedAt.is_listening, UiTimestamp.is_listening;
      case_bool_decide; try done; apply mousedown_listener_frame.
  - destruct c; simpl; apply document_mousemove_frame.
  - destruct c; simpl; apply document_mouseup_frame.
  - destruct c; simpl; unfold UiCreatedAt.is_listening, UiTimestamp.is_listening;
      case_bool_decide; try done.
    + apply (imageInput_change_frame CreatedAtCopy).
    + apply (imageInput_change_frame TimestampCopy).
  - destruct c; simpl.
    + apply (reader_onload_frame CreatedAtCopy).
    + apply (reader_onload_frame TimestampCopy).
  - destruct c; simpl.
    + apply UiCreatedAt_sort_spec.
    + apply UiTimestamp_sort_spec.
Qed.

(** C3: a click on the delete control of a note element removes nothing:
    the manager, the board and the trace of calls are as before the click.
    The [animationend] event that follows runs the listener, which first
    removes the element from the document and then calls [removeNote] with
    the note's id (once per click made until then); without a click before
    it, [animationend] runs no listener; and no other event changes the
    manager.  This holds in both copies of ui.js. *)
Theorem delete_waits_for_animationend (c : Copy) (w : World) (e : ElemId)
    (el : Element) (n : Note) (ev : Event) :
  elements w !! e = Some el →
  listening el = true →
  heap w !! el_note el = Some n →
  (∀ e', ev ≠ EAnimationEnd e') →
  (manager (handle c (EDeleteClick e) w) = manager w ∧
   board (handle c (EDeleteClick e) w) = board w ∧
   trace (handle c (EDeleteClick e) w) = trace w) ∧
  (trace (handle c (EAnimationEnd e) (handle c (EDeleteClick e) w)) =
     (trace w ++ concat (replicate (S (animationend el))
                           [CElementRemove e; CRemoveNote (note_id n)]))%list ∧
   manager (handle c (EAnimationEnd e) (handle c (EDeleteClick e) w)) =
     Map_delete (note_id n) (manager w) ∧
   board (handle c (EAnimationEnd e) (handle c (EDeleteClick e) w)) =
     filter (λ x, x ≠ e) (board w)) ∧
  trace (handle c (EAnimationEnd e) w) =
    (trace w ++ concat (replicate (animationend el)
                          [CElementRemove e; CRemoveNote (note_id n)]))%list ∧
  manager (handle c ev w) = manager w.
Proof.
  intros He Hl Hn Hev.
  assert (handle c (EDeleteClick e) w = deleteNote e w) as Hclick.
  { destruct c; simpl; unfold UiCreatedAt.is_listening, UiTimestamp.is_listening;
      rewrite He; simpl; by rewrite Hl, bool_decide_eq_true_2. }
  assert (∀ w', handle c (EAnimationEnd e) w' = dispatch_animationend e w') as Hend
    by (by destruct c).
  rewrite Hclick, !Hend.
  set (el1 := add_animationend (classList_add "note-fade-out" el)).
  assert (elements (deleteNote e w) !! e = Some el1) as He1.
  { unfold deleteNote. simpl. by rewrite !list_lookup_alter_eq, He. }
  split; [done|]. split; [|split].
  - unfold dispatch_animationend. rewrite He1.
    change (animationend el1) with (S (animationend el)).
    destruct (iter_animationend_spec (S (animationend el)) e el1 n (deleteNote e w))
      as (Ht & _); [done..|].
    destruct (iter_animationend_spec (animationend el) e el1 n (deleteNote e w))
      as (_ & Hm & Hb); [done..|].
    by rewrite Ht, Hm, Hb.
  - unfold dispatch_animationend. rewrite He.
    by destruct (iter_animationend_spec (animationend el) e el n w) as (Ht & _).
  - by apply handle_manager.
Qed.

Lemma delete_waits_for_animationend_witness :
  (elements world_rendered !! 0%nat = Some (element_of world_rendered 0) ∧
   listening (element_of world_rendered 0) = true ∧
   heap world_rendered !! el_note (element_of world_rendered 0) =
     Some (sample_note "a" 300 40 (JStr "1970-01-01T00:00:00.005Z")
                       (JStr "1970-01-01T00:00:00.005Z"))) ∧
  manager (handle CreatedAtCopy (EAnimationEnd 0%nat)
             (handle CreatedAtCopy (EDeleteClick 0%nat) world_rendered)) =
    Map_delete "a" (manager world_rendered).
Proof.
  split; [repeat split; vm_compute; reflexivity|].
  apply (delete_waits_for_animationend CreatedAtCopy world_rendered 0%nat
           (element_of world_rendered 0)
           (sample_note "a" 300 40 (JStr "1970-01-01T00:00:00.005Z")
                        (JStr "1970-01-01T00:00:00.005Z"))
           EMouseUp); [vm_compute; reflexivity..|discriminate].
Defined.

(** ** Attaching an image *)

Lemma fmap_forget_position {B} (f : Note → B) (h h' : Heap) :
  (∀ n, f (forget_position n) = f n) →
  forget_position <$> h' = forget_position <$> h →
  f <$> h' = f <$> h.
Proof.
  intros Hf Hh.
  assert (∀ l : Heap, f <$> l = f <$> (forget_position <$> l)) as Hcomp.
  { intros l. rewrite <- list_fmap_compose. apply list_fmap_ext.
    intros _ n _. simpl. by rewrite Hf. }
  by rewrite (Hcomp h'), (Hcomp h), Hh.
Qed.

(** Of the events embedded here only the load of a file read changes
    anything of a note but its position. *)
Lemma handle_heap (c : Copy) (ev : Event) (w : World) :
  (∀ k, ev ≠ EReaderLoad k) →
  forget_position <$> heap (handle c ev w) = forget_position <$> heap w.
Proof.
  intros Hev.
  destruct ev as [e|e|e t m lay|m lay| |e files|k|order].
  - destruct c; simpl; unfold UiCreatedAt.is_listening, UiTimestamp.is_listening;
      case_bool_decide; try done; by destruct (deleteNote_frame e w) as [(-> & _) _].
  - destruct c; simpl; by destruct (dispatch_animationend_frame e w) as (-> & _).
  - destruct c; simpl; unfold UiCreatedAt.is_listening, UiTimestamp.is_listening;
      case_bool_decide; try done;
      by destruct (mousedown_listener_frame e t m lay w) as [(-> & _) _].
  - destruct c; simpl; apply document_mousemove_frame.
  - destruct c; simpl; by destruct (document_mouseup_frame w) as [(-> & _) _].
  - destruct c; simpl; unfold UiCreatedAt.is_listening, UiTimestamp.is_listening;
      case_bool_decide; try done.
    + by destruct (imageInput_change_frame CreatedAtCopy e files w) as (_ & -> & _).
    + by destruct (imageInput_change_frame TimestampCopy e files w) as (_ & -> & _).
  - by destruct (Hev k).
  - destruct c; simpl.
    + destruct (UiCreatedAt_sort_spec order w) as (_ & _ & -> & _).
      by apply stack_heap_fmap.
    + by destruct (UiTimestamp_sort_spec order w) as (_ & _ & -> & _).
Qed.

(** Every event keeps the pending reads image-typed. *)
Lemma handle_readers_image (c : Copy) (ev : Event) (w : World) :
  readers_image w → readers_image (handle c ev w).
Proof.
  unfold readers_image. intros Hw.
  destruct ev as [e|e|e t m lay|m lay| |e files|k|order].
  - destruct c; simpl; unfold UiCreatedAt.is_listening, UiTimestamp.is_listening;
      case_bool_decide; try done;
      by destruct (deleteNote_frame e w) as [(_ & _ & _ & -> & _) _].
  - destruct c; simpl; by destruct (dispatch_animationend_frame e w) as (_ & -> & _).
  - destruct c; simpl; unfold UiCreatedAt.is_listening, UiTimestamp.is_listening;
      case_bool_decide; try done;
      by destruct (mousedown_listener_frame e t m lay w) as [(_ & _ & _ & -> & _) _].
  - destruct c; simpl; by destruct (document_mousemove_frame m lay w) as (_ & -> & _).
  - destruct c; simpl; by destruct (document_mouseup_frame w) as [(_ & _ & _ & -> & _) _].
  - assert (∀ w', (w' = w ∨ ∃ file, files !! 0%nat = Some file ∧ is_image file = true ∧
                     readers w' = (readers w ++ [mkReader e file])%list) →
                  Forall (λ r, is_image (reader_file r) = true) (readers w')) as Hcase.
    { intros w' [->|(file & _ & Hi & ->)]; [done|].
      apply Forall_app. split; [done|]. by repeat constructor. }
    destruct c; simpl; unfold UiCreatedAt.is_listening, UiTimestamp.is_listening;
      case_bool_decide; try done; apply Hcase.
    + apply (imageInput_change_frame CreatedAtCopy).
    + apply (imageInput_change_frame TimestampCopy).
  - assert (∀ w', (readers w' = readers w ∨ readers w' = delete k (readers w)) →
                  Forall (λ r, is_image (reader_file r) = true) (readers w')) as Hcase.
    { intros w' [->| ->]; [done|]. by apply Forall_delete. }
    destruct c; simpl; apply Hcase.
    + apply (reader_onload_frame CreatedAtCopy).
    + apply (reader_onload_frame TimestampCopy).
  - destruct c; simpl.
    + by destruct (UiCreatedAt_sort_spec order w) as (_ & -> & _).
    + by destruct (UiTimestamp_sort_spec order w) as (_ & -> & _).
Qed.

(** C7: when the first file offered by the image input is not image-typed,
    the change listener does nothing at all: the note, the preview and the
    trace are as before and no read is started.  Reads are only ever pending
    for image-typed files, and an event that changes the image of a note
    (under either property name) is the load of such a read.  This holds in
    both copies of ui.js. *)
Theorem non_image_file_ignored (c : Copy) (w : World) (e : ElemId)
    (files : list File) (file : File) (ev : Event) :
  files !! 0%nat = Some file →
  is_image file = false →
  readers_image w →
  handle c (EImageChange e files) w = w ∧
  readers_image (handle c ev w) ∧
  ((imageData <$> heap (handle c ev w) = imageData <$> heap w ∧
    imageDataUrl <$> heap (handle c ev w) = imageDataUrl <$> heap w) ∨
   ∃ k r, ev = EReaderLoad k ∧ readers w !! k = Some r ∧
          is_image (reader_file r) = true).
Proof.
  intros Hfile Hni Hw. split; [|split].
  - destruct c; simpl; unfold UiCreatedAt.is_listening, UiTimestamp.is_listening;
      case_bool_decide; try done;
      unfold UiCreatedAt.imageInput_change, UiTimestamp.imageInput_change;
      by rewrite Hfile, Hni.
  - by apply handle_readers_image.
  - assert ((∃ k, ev = EReaderLoad k) ∨ ∀ k, ev ≠ EReaderLoad k) as [[k ->]|Hev]
      by (destruct ev; eauto).
    + destruct (readers w !! k) as [r|] eqn:Hr.
      * right. exists k, r. repeat split; [done|].
        unfold readers_image in Hw. rewrite Forall_lookup in Hw. by eapply Hw.
      * left. destruct c; simpl;
          unfold UiCreatedAt.reader_onload, UiTimestamp.reader_onload; by rewrite Hr.
    + left. split; apply fmap_forget_position; by auto using handle_heap.
Qed.

Lemma non_image_file_ignored_witness :
  ([text_file] !! 0%nat = Some text_file ∧
   is_image text_file = false ∧
   readers_image world_rendered) ∧
  handle CreatedAtCopy (EImageChange 0%nat [text_file]) world_rendered = world_rendered.
Proof.
  split; [repeat split; vm_compute; try reflexivity; constructor|].
  apply (non_image_file_ignored CreatedAtCopy world_rendered 0%nat [text_file]
           text_file EMouseUp); vm_compute; try reflexivity; constructor.
Defined.

(** ** The bootstrap *)

Lemma renderAllNotes_frame (c : Copy) (w : World) :
  heap (renderAllNotes c w) = heap w ∧ manager (renderAllNotes c w) = manager w.
Proof.
  destruct c; simpl.
  - unfold UiCreatedAt.renderAllNotes. cbn zeta.
    set (step := λ (w : World) (l : Loc),
                   let '(e, w) := createElement l w in
                   let w := UiCreatedAt.setupNoteEventListeners e l w in
                   appendChild e w).
    assert (∀ ls w0, heap (foldl step w0 ls) = heap w0 ∧
                     manager (foldl step w0 ls) = manager w0) as Hfold.
    { intros ls. induction ls as [|l ls IH]; intros w0; [done|].
      cbn [foldl]. destruct (IH (step w0 l)) as [-> ->].
      unfold step, createElement. cbn zeta.
      by destruct (UiCreatedAt_setup_dom_only (List.length (elements w0)) l
                     (set_elements (elements w0 ++
                        [mkElement l [] None JUndefined "" "" None None false false NaN NaN 0])%list
                        w0)) as (Hh & Hm & _). }
    apply (Hfold _ (set_board [] w)).
  - unfold UiTimestamp.renderAllNotes. cbn zeta.
    assert (∀ es w0, heap (foldl (λ w e, element_remove e w) w0 es) = heap w0 ∧
                     manager (foldl (λ w e, element_remove e w) w0 es) = manager w0) as Hrm.
    { intros es. induction es as [|e es IH]; intros w0; [done|].
      cbn [foldl]. by destruct (IH (element_remove e w0)) as [-> ->]. }
    assert (∀ ls w0, heap (foldl UiTimestamp.place w0 ls) = heap w0 ∧
                     manager (foldl UiTimestamp.place w0 ls) = manager w0) as Hpl.
    { intros ls. induction ls as [|l ls IH]; intros w0; [done|].
      cbn [foldl]. destruct (IH (UiTimestamp.place w0 l)) as [-> ->].
      by destruct (UiTimestamp_place_spec w0 l) as (-> & -> & _). }
    destruct (Hpl (getAllNotes (manager (foldl (λ w e, element_remove e w) w (board w))))
                  (foldl (λ w e, element_remove e w) w (board w))) as [-> ->].
    apply Hrm.
Qed.

Lemma elem_of_Map_set (k : string) (l : Loc) (m : NoteManager) (kl : string * Loc) :
  kl ∈ Map_set k l m → kl = (k, l) ∨ kl ∈ m.
Proof.
  induction m as [|[k' l'] m IH]; simpl.
  - intros ->%list_elem_of_singleton. by left.
  - destruct (String.eqb k k'); rewrite !elem_of_cons.
    + intros [->|?]; auto.
    + intros [->|Hin]; [auto|]. destruct (IH Hin); auto.
Qed.

Lemma forEach_saved_spec (now : nat → string) (records : list Note) (i : nat) (w : World) :
  i = List.length (heap w) →
  heap (Main.forEach_saved now i records w) = (heap w ++ backfilled now i records)%list ∧
  ∀ k l, (k, l) ∈ manager (Main.forEach_saved now i records w) →
         (k, l) ∈ manager w ∨
         ∃ n, (heap w ++ backfilled now i records)%list !! l = Some n ∧
              note_id n = k ∧ (i ≤ l)%nat.
Proof.
  revert i w. induction records as [|r records IH]; intros i w Hi; simpl.
  { rewrite app_nil_r. by auto. }
  unfold Main.new_Note. cbn zeta.
  assert ((if negb (truthy (timestamp r)) then set_timestamp (JStr (now i)) r else r)
          = backfill now i r) as -> by (unfold backfill; by destruct (truthy _)).
  set (w1 := set_heap (heap w ++ [backfill now i r])%list w).
  assert (heap w1 !! List.length (heap w) = Some (backfill now i r)) as Hnew.
  { unfold w1. simpl. by rewrite list_lookup_middle. }
  assert (addNote (List.length (heap w)) w1 =
          set_manager (Map_set (note_id (backfill now i r)) (List.length (heap w))
                               (manager w)) w1) as Hadd.
  { unfold addNote. by rewrite Hnew. }
  rewrite Hadd.
  destruct (IH (S i) (set_manager (Map_set (note_id (backfill now i r))
                                           (List.length (heap w)) (manager w)) w1))
    as [Hh Hm].
  { simpl. rewrite length_app. simpl. lia. }
  simpl in Hh, Hm. rewrite <- app_assoc in Hh, Hm. simpl in Hh, Hm.
  split; [done|].
  intros k l Hkl. destruct (Hm k l Hkl) as [Hin|(n & Hn & Hid & Hle)].
  - apply elem_of_Map_set in Hin as [[= -> ->]|Hin]; [|by left].
    right. exists (backfill now i r). split; [|split; [done|lia]].
    by rewrite list_lookup_middle.
  - right. exists n. split; [done|]. split; [done|lia].
Qed.

Lemma backfilled_lookup (now : nat → string) (records : list Note) (i j : nat) :
  backfilled now i records !! j = backfill now (i + j) <$> records !! j.
Proof.
  revert i j. induction records as [|r records IH]; intros i j; [done|].
  destruct j as [|j]; simpl.
  - by rewrite Nat.add_0_r.
  - rewrite IH. by rewrite Nat.add_succ_r.
Qed.

Lemma backfill_truthy (now : nat → string) (i : nat) (r : Note) :
  isNaN (Date_parse (now i)) = false →
  truthy (timestamp (backfill now i r)) = true.
Proof.
  intros Hnow. unfold backfill. destruct (truthy (timestamp r)) eqn:Ht; [done|].
  simpl. destruct (String.eqb_spec (now i) "") as [Hempty|]; [|done].
  by rewrite Hempty, Date_parse_empty in Hnow.
Qed.

Lemma Map_set_keys (k : string) (l : Loc) (m : NoteManager) (k' : string) :
  k' ∈ (Map_set k l m).*1 ↔ k' = k ∨ k' ∈ m.*1.
Proof.
  induction m as [|[k0 l0] m IH]; cbn [Map_set].
  - rewrite !fmap_cons, fmap_nil, list_elem_of_singleton, elem_of_nil. simpl. tauto.
  - destruct (String.eqb_spec k k0) as [->|Hne];
      rewrite !fmap_cons, !elem_of_cons; simpl.
    + tauto.
    + rewrite IH. tauto.
Qed.

Lemma Map_set_NoDup (k : string) (l : Loc) (m : NoteManager) :
  NoDup m.*1 → NoDup (Map_set k l m).*1.
Proof.
  induction m as [|[k0 l0] m IH]; cbn [Map_set]; intros Hnd.
  - apply NoDup_singleton.
  - rewrite fmap_cons in Hnd. apply NoDup_cons in Hnd as [Hk0 Hnd].
    destruct (String.eqb_spec k k0) as [->|Hne]; rewrite fmap_cons.
    + by constructor.
    + constructor; [|by apply IH].
      rewrite Map_set_keys. simpl in *. intros [?|?]; [by subst|by apply Hk0].
Qed.

Lemma forEach_saved_keys (now : nat → string) (records : list Note) (i : nat)
    (w : World) (k : string) :
  i = List.length (heap w) →
  k ∈ (manager w).*1 ∨ k ∈ note_id <$> records →
  k ∈ (manager (Main.forEach_saved now i records w)).*1.
Proof.
  revert i w. induction records as [|r records IH]; intros i w Hi Hk; simpl.
  { destruct Hk as [?|Hk]; [done|]. by apply elem_of_nil in Hk. }
  unfold Main.new_Note, addNote. cbn zeta. simpl.
  rewrite list_lookup_middle by done.
  apply IH; [simpl; rewrite length_app; simpl; lia|].
  simpl. rewrite Map_set_keys.
  assert (∀ r', note_id (if negb (truthy (timestamp r))
                         then set_timestamp (JStr (now i)) r' else r') = note_id r') as Hid
    by (intros; by destruct (negb _)).
  rewrite Hid. destruct Hk as [?|Hk]; [by auto|].
  apply elem_of_cons in Hk as [->|?]; by auto.
Qed.

Lemma forEach_saved_wf (now : nat → string) (records : list Note) (i : nat) (w : World) :
  i = List.length (heap w) →
  manager_wf w →
  manager_wf (Main.forEach_saved now i records w).
Proof.
  revert i w. induction records as [|r records IH]; intros i w Hi Hwf; [done|].
  simpl. unfold Main.new_Note, addNote. cbn zeta. simpl.
  rewrite list_lookup_middle by done.
  apply IH; [simpl; rewrite length_app; simpl; lia|].
  destruct Hwf as [Hnd Hid]. split; simpl.
  - by apply Map_set_NoDup.
  - intros k l Hkl. apply elem_of_Map_set in Hkl as [[= -> ->]|Hkl].
    + eexists. split; [by apply list_lookup_middle|done].
    + destruct (Hid k l Hkl) as (n & Hn & Hk). exists n.
      split; [by apply lookup_app_l_Some|done].
Qed.

(** After the bootstrap the manager is a well-formed Map. *)
Lemma bootstrap_manager_wf (c : Copy) (now : nat → string) (saved : Main.Saved) :
  manager_wf (Main.bootstrap c now saved).
Proof.
  assert (manager_wf Main.initial) as Hinit.
  { split; [constructor|]. intros k l Hkl. by apply elem_of_nil in Hkl. }
  destruct saved as [| |records]; simpl; [done..|].
  destruct (renderAllNotes_frame c (Main.forEach_saved now 0 records Main.initial))
    as [Hh Hm].
  pose proof (forEach_saved_wf now records 0 Main.initial eq_refl Hinit) as [Hnd Hid].
  split; [by rewrite Hm|]. intros k l. rewrite Hm, Hh. apply Hid.
Qed.

(** C8: when the [i]-th saved record has no [timestamp], the note object
    made from it, which is the [i]-th object of the heap, carries the
    reading of the clock as its [timestamp], and that reading is a valid
    date; the id of the record is in the manager; and after the bootstrap
    every note in the manager has a [timestamp] that is set.  This holds
    with either copy of ui.js behind the import. *)
Theorem bootstrap_backfills_timestamp (c : Copy) (now : nat → string)
    (records : list Note) (i : nat) (r : Note) :
  (∀ j, isNaN (Date_parse (now j)) = false) →
  records !! i = Some r →
  timestamp r = JUndefined →
  heap (Main.bootstrap c now (Main.SavedArray records)) !! i =
    Some (set_timestamp (JStr (now i)) r) ∧
  isNaN (getTime (new_Date (JStr (now i)))) = false ∧
  note_id r ∈ manager_ids (Main.bootstrap c now (Main.SavedArray records)) ∧
  Forall (λ kl, ∃ n, heap (Main.bootstrap c now (Main.SavedArray records)) !! kl.2 = Some n ∧
                     note_id n = kl.1 ∧ truthy (timestamp n) = true)
         (manager (Main.bootstrap c now (Main.SavedArray records))).
Proof.
  intros Hnow Hr Hts. simpl.
  destruct (renderAllNotes_frame c (Main.forEach_saved now 0 records Main.initial))
    as [Hh Hm].
  destruct (forEach_saved_spec now records 0 Main.initial eq_refl) as [Hheap Hman].
  simpl in Hheap, Hman.
  unfold manager_ids. rewrite Hh, Hm, Hheap.
  split; [|split; [|split]].
  - rewrite backfilled_lookup, Hr. simpl. unfold backfill. by rewrite Hts.
  - apply Hnow.
  - apply forEach_saved_keys; [done|]. right.
    apply list_elem_of_fmap. exists r. split; [done|].
    by eapply list_elem_of_lookup_2.
  - apply Forall_forall. intros [k l] Hkl.
    destruct (Hman k l Hkl) as [Hin|(n & Hn & Hid & _)].
    { by apply elem_of_nil in Hin. }
    exists n. split; [done|]. split; [done|].
    rewrite backfilled_lookup in Hn.
    destruct (records !! l) as [r'|]; [|done]. simpl in Hn. inv Hn.
    by apply backfill_truthy.
Qed.

Lemma bootstrap_backfills_timestamp_witness :
  ((∀ j, isNaN (Date_parse (sample_clock j)) = false) ∧
   sample_records !! 1%nat = Some (sample_note "n" 10 10 JUndefined JUndefined) ∧
   timestamp (sample_note "n" 10 10 JUndefined JUndefined) = JUndefined) ∧
  heap (Main.bootstrap TimestampCopy sample_clock (Main.SavedArray sample_records)) !! 1%nat =
    Some (set_timestamp (JStr (sample_clock 1))
            (sample_note "n" 10 10 JUndefined JUndefined)).
Proof.
  split; [split; [intros j|split]; vm_compute; reflexivity|].
  apply (bootstrap_backfills_timestamp TimestampCopy sample_clock sample_records 1%nat
           (sample_note "n" 10 10 JUndefined JUndefined));
    [intros j|..]; vm_compute; reflexivity.
Defined.

Example bootstrap_sample :
  (λ w, (manager w, timestamp <$> heap w))
    (Main.bootstrap TimestampCopy sample_clock (Main.SavedArray sample_records)) =
  ([("a", 0%nat); ("n", 1%nat)],
   [JStr "1970-01-01T00:00:00.005Z"; JStr "2025-07-09T14:37:00.000Z"]).
Proof. vm_compute. reflexivity. Qed.

(** ** A drag in progress has its offsets

    In every world that the handlers can reach from the bootstrap, an
    element with [isDragging] set has both [dragOffsetX] and [dragOffsetY]:
    only the mousedown listener sets the flag, and it sets the offsets with
    it. *)

Lemma drag_defined_elements (w w' : World) :
  elements w' = elements w → drag_defined w → drag_defined w'.
Proof. unfold drag_defined. by intros ->. Qed.

Lemma drag_defined_with_element (e : ElemId) (f : Element → Element) (w : World) :
  (∀ el, drag_ok el → drag_ok (f el)) →
  drag_defined w → drag_defined (with_element e f w).
Proof.
  intros Hf Hw. unfold drag_defined, with_element. simpl.
  apply Forall_alter; [done|]. intros el _. apply Hf.
Qed.

Lemma drag_defined_createElement (l : Loc) (w : World) :
  drag_defined w → drag_defined (createElement l w).2.
Proof.
  intros Hw. unfold drag_defined, createElement. simpl.
  apply Forall_app. split; [done|]. by repeat constructor.
Qed.

Lemma UiCreatedAt_renderTimestamp_drag (e : ElemId) (ts : JsValue) (w : World) :
  drag_defined w → drag_defined (UiCreatedAt.renderTimestamp e ts w).
Proof.
  intros Hw. unfold UiCreatedAt.renderTimestamp.
  destruct (isNaN _); [done|].
  apply drag_defined_with_element; [done|].
  repeat case_match; try done. by apply drag_defined_with_element.
Qed.

Lemma UiTimestamp_renderTimestamp_drag (e : ElemId) (ts : JsValue) (w : World) :
  drag_defined w → drag_defined (UiTimestamp.renderTimestamp e ts w).
Proof.
  intros Hw. unfold UiTimestamp.renderTimestamp.
  apply drag_defined_with_element; [done|].
  repeat case_match; try done. by apply drag_defined_with_element.
Qed.

Lemma UiCreatedAt_setup_drag (e : ElemId) (l : Loc) (w : World) :
  drag_defined w → drag_defined (UiCreatedAt.setupNoteEventListeners e l w).
Proof.
  intros Hw. unfold UiCreatedAt.setupNoteEventListeners.
  apply drag_defined_with_element; [done|].
  case_match; [apply UiCreatedAt_renderTimestamp_drag|];
    case_match; by apply drag_defined_with_element.
Qed.

Lemma UiTimestamp_setup_drag (e : ElemId) (l : Loc) (w : World) :
  drag_defined w → drag_defined (UiTimestamp.setupNoteEventListeners e l w).
Proof.
  intros Hw. unfold UiTimestamp.setupNoteEventListeners.
  apply drag_defined_with_element; [done|].
  case_match; [apply UiTimestamp_renderTimestamp_drag|];
    case_match; by apply drag_defined_with_element.
Qed.

Lemma UiCreatedAt_place_drag (st : Z * World) (l : Loc) :
  drag_defined st.2 → drag_defined (UiCreatedAt.place st l).2.
Proof.
  destruct st as [o w]. intros Hw. unfold UiCreatedAt.place. cbn [snd].
  apply UiCreatedAt_renderTimestamp_drag.
  eapply drag_defined_elements; [reflexivity|].
  apply drag_defined_with_element; [done|].
  apply UiCreatedAt_setup_drag.
  apply (drag_defined_createElement l (note_updatePosition l _ _ w)).
  by eapply drag_defined_elements.
Qed.

Lemma UiTimestamp_place_drag (w : World) (l : Loc) :
  drag_defined w → drag_defined (UiTimestamp.place w l).
Proof.
  intros Hw. unfold UiTimestamp.place.
  eapply drag_defined_elements; [reflexivity|].
  apply UiTimestamp_setup_drag. by apply (drag_defined_createElement l w).
Qed.

Lemma mouseup_listener_drag (e : ElemId) (w : World) :
  drag_defined w → drag_defined (mouseup_listener e w).
Proof.
  intros Hw. unfold mouseup_listener.
  destruct (elements w !! e) as [el|]; [|done].
  destruct (isDragging el); [|done].
  apply drag_defined_with_element; [done|].
  by apply drag_defined_with_element.
Qed.

Lemma alter_alter {A} (f g : A → A) (i : nat) (l : list A) :
  alter g i (alter f i l) = alter (g ∘ f) i l.
Proof.
  revert i. induction l as [|x l IH]; intros [|i]; simpl; [done..|].
  f_equal. apply IH.
Qed.

Lemma mousedown_listener_drag (e : ElemId) (t : Target) (ev : MouseEvent)
    (lay : Layout) (w : World) :
  drag_defined w → drag_defined (mousedown_listener e t ev lay w).
Proof.
  intros Hw. unfold mousedown_listener. destruct (is_control t); [done|].
  unfold drag_defined, with_element. simpl.
  rewrite !alter_alter.
  apply Forall_alter; [done|]. intros el _ _ _. simpl. eauto.
Qed.

(** Every event keeps the offsets of a drag in progress defined. *)
Lemma handle_drag_defined (c : Copy) (ev : Event) (w : World) :
  drag_defined w → drag_defined (handle c ev w).
Proof.
  intros Hw.
  destruct ev as [e|e|e t m lay|m lay| |e files|k|order].
  - destruct c; simpl; unfold UiCreatedAt.is_listening, UiTimestamp.is_listening;
      case_bool_decide; try done;
      unfold deleteNote; by repeat apply drag_defined_with_element.
  - eapply drag_defined_elements; [|exact Hw].
    destruct c; simpl; apply dispatch_animationend_frame.
  - destruct c; simpl; unfold UiCreatedAt.is_listening, UiTimestamp.is_listening;
      case_bool_decide; try done; by apply mousedown_listener_drag.
  - eapply drag_defined_elements; [|exact Hw].
    destruct c; simpl; apply document_mousemove_frame.
  - assert (drag_defined (document_mouseup w)) as Hup.
    { unfold document_mouseup. generalize (listeners w) as es. intros es.
      revert w Hw. induction es as [|e es IH]; intros w Hw; [done|].
      cbn [foldl]. by apply IH, mouseup_listener_drag. }
    by destruct c.
  - eapply drag_defined_elements; [|exact Hw].
    destruct c; simpl; unfold UiCreatedAt.is_listening, UiTimestamp.is_listening;
      case_bool_decide; try done.
    + apply (imageInput_change_frame CreatedAtCopy).
    + apply (imageInput_change_frame TimestampCopy).
  - destruct c; simpl; unfold UiCreatedAt.reader_onload, UiTimestamp.reader_onload;
      (destruct (readers w !! k) as [r|]; [|done]); simpl;
      (destruct (elements w !! reader_element r); [|done]);
      (eapply drag_defined_elements; [reflexivity|]);
      by apply (drag_defined_with_element _ _ (set_readers _ w)).
  - destruct c; simpl.
    + unfold UiCreatedAt.sortNotesByTimestamp. cbn zeta.
      generalize (Array_sort (UiCreatedAt.comparefn w order) (getAllNotes (manager w))).
      assert (drag_defined (20, set_board [] w).2) as H0 by done.
      revert H0. generalize (20, set_board [] w) as st.
      intros st Hst ls. revert st Hst.
      induction ls as [|l ls IH]; intros st Hst; [done|].
      cbn [foldl]. by apply IH, UiCreatedAt_place_drag.
    + unfold UiTimestamp.sortNotesByTimestamp. cbn zeta.
      generalize (Array_sort (UiTimestamp.comparefn w order) (getAllNotes (manager w))).
      assert (drag_defined (set_board [] w)) as H0 by done.
      revert H0. generalize (set_board [] w) as w0.
      intros w0 Hw0 ls. revert w0 Hw0.
      induction ls as [|l ls IH]; intros w0 Hw0; [done|].
      cbn [foldl]. by apply IH, UiTimestamp_place_drag.
Qed.

Lemma renderAllNotes_drag (c : Copy) (w : World) :
  drag_defined w → drag_defined (renderAllNotes c w).
Proof.
  intros Hw. destruct c; simpl.
  - unfold UiCreatedAt.renderAllNotes. cbn zeta.
    set (step := λ (w : World) (l : Loc),
                   let '(e, w) := createElement l w in
                   let w := UiCreatedAt.setupNoteEventListeners e l w in
                   appendChild e w).
    assert (∀ ls w0, drag_defined w0 → drag_defined (foldl step w0 ls)) as Hfold.
    { intros ls. induction ls as [|l ls IH]; intros w0 Hw0; [done|].
      cbn [foldl]. apply IH. unfold step.
      eapply drag_defined_elements; [reflexivity|].
      apply UiCreatedAt_setup_drag. by apply (drag_defined_createElement l w0). }
    by apply Hfold.
  - unfold UiTimestamp.renderAllNotes. cbn zeta.
    assert (∀ es w0, elements (foldl (λ w e, element_remove e w) w0 es) = elements w0) as Hrm.
    { intros es. induction es as [|e es IH]; intros w0; [done|].
      cbn [foldl]. by rewrite IH. }
    assert (∀ ls w0, drag_defined w0 → drag_defined (foldl UiTimestamp.place w0 ls)) as Hpl.
    { intros ls. induction ls as [|l ls IH]; intros w0 Hw0; [done|].
      cbn [foldl]. by apply IH, UiTimestamp_place_drag. }
    apply Hpl. by eapply drag_defined_elements; [apply Hrm|].
Qed.

(** The bootstrap starts every element out of a drag. *)
Lemma bootstrap_drag_defined (c : Copy) (now : nat → string) (saved : Main.Saved) :
  drag_defined (Main.bootstrap c now saved).
Proof.
  assert (drag_defined Main.initial) as Hinit by constructor.
  destruct saved as [| |records]; simpl; [done..|].
  apply renderAllNotes_drag.
  assert (∀ rs i w, elements (Main.forEach_saved now i rs w) = elements w) as Hel.
  { intros rs. induction rs as [|r rs IH]; intros i w; [done|].
    simpl. unfold Main.new_Note, addNote. cbn zeta. simpl.
    rewrite list_lookup_middle by done. by rewrite IH. }
  by eapply drag_defined_elements; [apply Hel|].
Qed.

(** A mouse move on the document leaves a note where it is when none of the
    elements of that note is being dragged, whatever happens to other
    notes. *)
Lemma document_mousemove_idle_note (l : Loc) (ev : MouseEvent) (lay : Layout) (w : World) :
  (∀ e el, elements w !! e = Some el → el_note el = l → isDragging el = false) →
  heap (document_mousemove ev lay w) !! l = heap w !! l.
Proof.
  unfold document_mousemove. generalize (listeners w) as es. intros es.
  revert w. induction es as [|e es IH]; intros w Hidle; [done|].
  cbn [foldl].
  assert (elements (mousemove_listener e ev lay w) = elements w ∧
          heap (mousemove_listener e ev lay w) !! l = heap w !! l) as [Hel Hh].
  { unfold mousemove_listener.
    destruct (elements w !! e) as [el|] eqn:He; [|done].
    destruct (isDragging el) eqn:Hd; [|done]. simpl.
    destruct (drag_position el e ev lay) as [newX newY]. simpl.
    split; [done|]. apply list_lookup_alter_ne.
    intros Hl. specialize (Hidle e el He Hl). congruence. }
  rewrite IH; [done|]. by rewrite Hel.
Qed.

(** ** The note without creation time, first and last *)

Lemma StronglySorted_head {A} `{EqDecision A} (R : relation A) (s : list A) (m : A) :
  StronglySorted R s → m ∈ s →
  (∀ x, x ∈ s → x ≠ m → ¬ R x m) →
  head s = Some m.
Proof.
  intros Hs Hm Hlow. destruct Hs as [|x s Hs Hx]; [by apply elem_of_nil in Hm|].
  simpl. f_equal. apply elem_of_cons in Hm as [->|Hm]; [done|].
  destruct (decide (x = m)) as [|Hne]; [done|]. exfalso.
  apply (Hlow x); [by left|done|]. rewrite Forall_forall in Hx. by apply Hx.
Qed.

Lemma StronglySorted_last {A} `{EqDecision A} (R : relation A) (s : list A) (m : A) :
  StronglySorted R s → m ∈ s →
  (∀ x, x ∈ s → x ≠ m → ¬ R m x) →
  last s = Some m.
Proof.
  induction 1 as [|x s Hs IH Hx]; intros Hm Hhigh; [by apply elem_of_nil in Hm|].
  destruct s as [|y s].
  - apply elem_of_cons in Hm as [->|Hm]; [done|by apply elem_of_nil in Hm].
  - change (last (x :: y :: s)) with (last (y :: s)).
    apply IH.
    + apply elem_of_cons in Hm as [->|Hm]; [|done].
      destruct (decide (y = x)) as [Heq|Hne]; [rewrite <- Heq; by left|]. exfalso.
      apply (Hhigh y); [by right; left|done|].
      rewrite Forall_forall in Hx. apply Hx. by left.
    + intros z Hz. apply Hhigh. by right.
Qed.

(** In the copy that reads [timestamp]: when one note of the manager has no
    [timestamp] and every other note was created after the epoch, a sort
    puts that note first in ascending order and last in descending order. *)
Lemma UiTimestamp_missing_earliest (w : World) (m : Loc) :
  m ∈ getAllNotes (manager w) →
  prop timestamp w m = JUndefined →
  (∀ l, l ∈ getAllNotes (manager w) → l ≠ m →
        ∃ t, creation_time TimestampCopy w l = Some t ∧ 0 < t) →
  head (board_notes (UiTimestamp.sortNotesByTimestamp Asc w)) = Some m ∧
  last (board_notes (UiTimestamp.sortNotesByTimestamp Desc w)) = Some m.
Proof.
  intros Hm Hmiss Hothers.
  assert (time_or_epoch TimestampCopy w m = 0) as Hkm.
  { unfold time_or_epoch. simpl. by rewrite Hmiss. }
  assert (∀ l, l ∈ getAllNotes (manager w) → l ≠ m →
               0 < time_or_epoch TimestampCopy w l) as Hkl.
  { intros l Hl Hne. destruct (Hothers l Hl Hne) as (t & Ht & Hpos).
    unfold time_or_epoch, creation_time, getTime, creation_field in *.
    destruct (prop timestamp w l); [done|rewrite Ht; simpl; lia..]. }
  destruct (UiTimestamp_sort_missing_as_epoch w) as [Hasc Hdesc].
  { intros l Hl. destruct (decide (l = m)) as [->|Hne]; [by left|].
    right. destruct (Hothers l Hl Hne) as (t & -> & _). by eexists. }
  pose proof (board_notes_sort TimestampCopy Asc w) as Ha.
  pose proof (board_notes_sort TimestampCopy Desc w) as Hd.
  simpl in Ha, Hd. split.
  - eapply StronglySorted_head; [exact Hasc| |].
    + by rewrite Ha, Array_sort_Permutation.
    + intros x Hx Hne. rewrite Ha, Array_sort_Permutation in Hx.
      unfold by_key. rewrite Hkm. specialize (Hkl x Hx Hne). lia.
  - eapply StronglySorted_last; [exact Hdesc| |].
    + by rewrite Hd, Array_sort_Permutation.
    + intros x Hx Hne. rewrite Hd, Array_sort_Permutation in Hx.
      unfold flip, by_key. rewrite Hkm. specialize (Hkl x Hx Hne). lia.
Qed.

(** main.js does not touch [createdAt]: what the saved records hold under
    that name is what the notes hold after the bootstrap. *)
Lemma bootstrap_leaves_createdAt (c : Copy) (now : nat → string) (records : list Note) :
  createdAt <$> heap (Main.bootstrap c now (Main.SavedArray records)) =
  createdAt <$> records.
Proof.
  simpl.
  destruct (renderAllNotes_frame c (Main.forEach_saved now 0 records Main.initial))
    as [-> _].
  destruct (forEach_saved_spec now records 0 Main.initial eq_refl) as [-> _].
  simpl. generalize 0%nat.
  induction records as [|r records IH]; intros i; [done|].
  simpl. rewrite IH. f_equal. unfold backfill. by destruct (truthy _).
Qed.

(** * Further properties of the code *)

(** ** The sort: order, ties, repetition *)

Lemma sort_insert_ties {A} (comparefn : A → A → JsNumber) (key : A → Z)
    (k : Z) (a : A) (l : list A) :
  (∀ b, b ∈ l → SortCompare comparefn a b = key a - key b) →
  filter (λ x, key x = k) (sort_insert comparefn a l) =
  filter (λ x, key x = k) (a :: l).
Proof.
  induction l as [|b l IH]; intros Hcmp; [done|].
  cbn [sort_insert]. rewrite Hcmp by left.
  destruct (Z.leb_spec (key a - key b) 0) as [Hle|Hgt]; [done|].
  rewrite (filter_cons _ b), IH by (intros b' Hb'; apply Hcmp; by right).
  rewrite !(filter_cons _ a), (filter_cons _ b).
  repeat case_decide; try done; lia.
Qed.

Lemma Array_sort_ties {A} (comparefn : A → A → JsNumber) (key : A → Z) (l : list A) :
  (∀ a b, a ∈ l → b ∈ l → SortCompare comparefn a b = key a - key b) →
  keeps_ties key l (Array_sort comparefn l).
Proof.
  intros Hcmp k. induction l as [|a l IH]; [done|].
  cbn [Array_sort]. rewrite sort_insert_ties.
  - rewrite !(filter_cons _ a), IH; [done|].
    intros ????. apply Hcmp; by right.
  - intros b Hb. apply Hcmp; [by left|].
    right. by rewrite <- (Array_sort_Permutation comparefn l).
Qed.

Lemma keeps_ties_neg {A} (key : A → Z) (l l' : list A) :
  keeps_ties (λ x, - key x) l l' → keeps_ties key l l'.
Proof.
  intros H k. specialize (H (- k)).
  rewrite (list_filter_iff (λ a, key a = k) (λ a, - key a = - k)) by (intros; lia).
  rewrite H. apply list_filter_iff. intros; lia.
Qed.

Lemma Array_sort_ext {A} (f g : A → A → JsNumber) (l : list A) :
  (∀ a b, f a b = g a b) → Array_sort f l = Array_sort g l.
Proof.
  intros Hfg. induction l as [|a l IH]; [done|]. simpl. rewrite IH.
  generalize (Array_sort g l) as s. intros s.
  induction s as [|b s IHs]; [done|]. simpl.
  unfold SortCompare. by rewrite Hfg, IHs.
Qed.

(** When every note of the manager has a valid creation time, a sort shows
    each note once, in ascending order by non-decreasing and in descending
    order by non-increasing creation time, in both copies of ui.js. *)
Theorem sort_orders_by_creation_time (c : Copy) (w : World) :
  (∀ l, l ∈ getAllNotes (manager w) → is_Some (creation_time c w l)) →
  board_notes (sortNotesByTimestamp c Asc w) ≡ₚ getAllNotes (manager w) ∧
  board_notes (sortNotesByTimestamp c Desc w) ≡ₚ getAllNotes (manager w) ∧
  StronglySorted (by_key (λ l, default 0 (creation_time c w l)))
    (board_notes (sortNotesByTimestamp c Asc w)) ∧
  StronglySorted (flip (by_key (λ l, default 0 (creation_time c w l))))
    (board_notes (sortNotesByTimestamp c Desc w)).
Proof.
  intros Hvalid. rewrite !board_notes_sort.
  set (key := λ l, default 0 (creation_time c w l)).
  assert (∀ l, l ∈ getAllNotes (manager w) → creation_time c w l = Some (key l)) as Hkey.
  { intros l Hl. destruct (Hvalid l Hl) as [t Ht]. unfold key. by rewrite Ht. }
  split; [apply Array_sort_Permutation|]. split; [apply Array_sort_Permutation|].
  split.
  - apply Array_sort_sorted. intros a b Ha Hb. unfold SortCompare.
    by destruct (comparefn_key c w a b (key a) (key b)) as [-> _]; auto.
  - eapply StronglySorted_mono; [intros a b; apply by_key_neg_flip|].
    apply Array_sort_sorted. intros a b Ha Hb. unfold SortCompare.
    destruct (comparefn_key c w a b (key a) (key b)) as [_ ->]; auto. lia.
Qed.

Lemma sort_orders_by_creation_time_witness :
  (∀ l, l ∈ getAllNotes (manager world_two) →
        is_Some (creation_time TimestampCopy world_two l)) ∧
  StronglySorted (by_key (λ l, default 0 (creation_time TimestampCopy world_two l)))
    (board_notes (sortNotesByTimestamp TimestampCopy Asc world_two)).
Proof.
  assert (∀ l, l ∈ getAllNotes (manager world_two) →
               is_Some (creation_time TimestampCopy world_two l)) as Hvalid.
  { intros l Hl. vm_compute in Hl.
    repeat (apply elem_of_cons in Hl as [->|Hl]); [vm_compute; eauto..|].
    by apply elem_of_nil in Hl. }
  split; [exact Hvalid|].
  apply (sort_orders_by_creation_time TimestampCopy world_two Hvalid).
Defined.

(** Notes with the same creation time keep, after a sort in either order,
    the order in which the manager holds them (both copies; every creation
    time valid). *)
Theorem sort_keeps_order_of_ties (c : Copy) (order : Order) (w : World) :
  (∀ l, l ∈ getAllNotes (manager w) → is_Some (creation_time c w l)) →
  keeps_ties (λ l, default 0 (creation_time c w l))
    (getAllNotes (manager w)) (board_notes (sortNotesByTimestamp c order w)).
Proof.
  intros Hvalid. rewrite board_notes_sort.
  set (key := λ l, default 0 (creation_time c w l)).
  assert (∀ l, l ∈ getAllNotes (manager w) → creation_time c w l = Some (key l)) as Hkey.
  { intros l Hl. destruct (Hvalid l Hl) as [t Ht]. unfold key. by rewrite Ht. }
  destruct order.
  - apply Array_sort_ties. intros a b Ha Hb. unfold SortCompare.
    by destruct (comparefn_key c w a b (key a) (key b)) as [-> _]; auto.
  - apply keeps_ties_neg, Array_sort_ties. intros a b Ha Hb. unfold SortCompare.
    destruct (comparefn_key c w a b (key a) (key b)) as [_ ->]; auto. lia.
Qed.

Lemma sort_keeps_order_of_ties_witness :
  (∀ l, l ∈ getAllNotes (manager world_ties) →
        is_Some (creation_time CreatedAtCopy world_ties l)) ∧
  keeps_ties (λ l, default 0 (creation_time CreatedAtCopy world_ties l))
    (getAllNotes (manager world_ties))
    (board_notes (sortNotesByTimestamp CreatedAtCopy Desc world_ties)).
Proof.
  assert (∀ l, l ∈ getAllNotes (manager world_ties) →
               is_Some (creation_time CreatedAtCopy world_ties l)) as Hvalid.
  { intros l Hl. vm_compute in Hl.
    repeat (apply elem_of_cons in Hl as [->|Hl]); [vm_compute; eauto..|].
    by apply elem_of_nil in Hl. }
  split; [exact Hvalid|].
  apply (sort_keeps_order_of_ties CreatedAtCopy Desc world_ties Hvalid).
Defined.

Example sort_ties_sample :
  board_notes (sortNotesByTimestamp CreatedAtCopy Desc world_ties) = [0; 2; 1]%nat ∧
  board_notes (sortNotesByTimestamp CreatedAtCopy Asc world_ties) = [1; 0; 2]%nat.
Proof. vm_compute. split; reflexivity. Qed.

Lemma prop_forget_position (f : Note → JsValue) (w w' : World) (l : Loc) :
  (∀ n, f (forget_position n) = f n) →
  forget_position <$> heap w' = forget_position <$> heap w →
  prop f w' l = prop f w l.
Proof.
  intros Hf Hh. unfold prop.
  assert (f <$> heap w' !! l = f <$> heap w !! l) as Hl.
  { rewrite <- !list_lookup_fmap. f_equal. by apply fmap_forget_position. }
  destruct (heap w' !! l), (heap w !! l); simpl in *; congruence.
Qed.

Lemma updatePosition_twice (a b a' b' : JsNumber) (n : Note) :
  updatePosition a b (updatePosition a' b' n) = updatePosition a b n.
Proof. done. Qed.

(** Where the layout of [ls] puts the note at [l], whatever the heap. *)
Lemma stack_heap_lookup_in (o : Z) (ls : list Loc) (l : Loc) :
  l ∈ ls →
  ∃ y, ∀ h : Heap,
    stack_heap o ls h !! l = updatePosition (Some 20) (Some y) <$> h !! l.
Proof.
  revert o. induction ls as [|l' ls IH]; intros o Hl; [by apply elem_of_nil in Hl|].
  destruct (decide (l ∈ ls)) as [Hin|Hnotin].
  - destruct (IH (o + 160) Hin) as [y Hy]. exists y. intros h. simpl.
    rewrite Hy. destruct (decide (l' = l)) as [->|Hne].
    + rewrite list_lookup_alter_eq. by destruct (h !! l).
    + by rewrite list_lookup_alter_ne.
  - apply elem_of_cons in Hl as [->|Hl]; [|done].
    exists o. intros h. simpl.
    by rewrite stack_heap_lookup_notin, list_lookup_alter_eq.
Qed.

Lemma stack_heap_twice (o o' : Z) (ls ls' : list Loc) (h : Heap) :
  ls' ≡ₚ ls → stack_heap o ls (stack_heap o' ls' h) = stack_heap o ls h.
Proof.
  intros Hperm. apply list_eq. intros l.
  destruct (decide (l ∈ ls)) as [Hin|Hnotin].
  - destruct (stack_heap_lookup_in o ls l Hin) as [y Hy].
    assert (l ∈ ls') as Hin' by (by rewrite Hperm).
    destruct (stack_heap_lookup_in o' ls' l Hin') as [y' Hy'].
    rewrite !Hy, Hy'. destruct (h !! l) as [n|]; [|done].
    change (Some (updatePosition (Some 20) (Some y) (updatePosition (Some 20) (Some y') n))
            = Some (updatePosition (Some 20) (Some y) n)). done.
  - rewrite !(stack_heap_lookup_notin o ls) by done.
    apply stack_heap_lookup_notin. by rewrite Hperm.
Qed.

(** A sort starts from the manager and the creation times, not from where
    the notes are: after any sort, a sort gives the board and the heap that
    it would have given without the earlier one; in particular sorting twice
    in the same order is sorting once (both copies). *)
Theorem sort_forgets_earlier_sort (c : Copy) (order order' : Order) (w : World) :
  board_notes (sortNotesByTimestamp c order (sortNotesByTimestamp c order' w)) =
    board_notes (sortNotesByTimestamp c order w) ∧
  heap (sortNotesByTimestamp c order (sortNotesByTimestamp c order' w)) =
    heap (sortNotesByTimestamp c order w) ∧
  manager (sortNotesByTimestamp c order (sortNotesByTimestamp c order' w)) = manager w.
Proof.
  set (w1 := sortNotesByTimestamp c order' w).
  assert (manager w1 = manager w ∧
          forget_position <$> heap w1 = forget_position <$> heap w) as [Hm Hf].
  { destruct c; simpl in *.
    - destruct (UiCreatedAt_sort_spec order' w) as (Hm & _ & Hh & _).
      split; [done|]. unfold w1. simpl. rewrite Hh. by apply stack_heap_fmap.
    - destruct (UiTimestamp_sort_spec order' w) as (Hm & _ & Hh & _).
      split; [done|]. unfold w1. simpl. by rewrite Hh. }
  assert (board_notes (sortNotesByTimestamp c order w1) =
          board_notes (sortNotesByTimestamp c order w)) as Hb.
  { rewrite !board_notes_sort, Hm. apply Array_sort_ext. intros a b.
    destruct c; simpl.
    - unfold UiCreatedAt.comparefn.
      by rewrite !(prop_forget_position createdAt w w1).
    - unfold UiTimestamp.comparefn.
      by rewrite !(prop_forget_position timestamp w w1). }
  split; [done|]. split.
  - destruct c; simpl in *.
    + destruct (UiCreatedAt_sort_spec order w1) as (_ & _ & -> & Hb1).
      destruct (UiCreatedAt_sort_spec order w) as (_ & _ & -> & Hb0).
      destruct (UiCreatedAt_sort_spec order' w) as (_ & _ & Hh' & _).
      rewrite <- Hb1, <- Hb0, Hb.
      unfold w1. simpl. rewrite Hh'. apply stack_heap_twice.
      rewrite Hb0. by rewrite !Array_sort_Permutation.
    + destruct (UiTimestamp_sort_spec order w1) as (_ & _ & -> & _).
      destruct (UiTimestamp_sort_spec order w) as (_ & _ & -> & _).
      unfold w1. simpl.
      by destruct (UiTimestamp_sort_spec order' w) as (_ & _ & -> & _).
  - rewrite <- Hm. destruct c; simpl in *.
    + destruct (UiCreatedAt_sort_spec order w1) as (-> & _). done.
    + destruct (UiTimestamp_sort_spec order w1) as (-> & _). done.
Qed.

Lemma UiCreatedAt_sort_stacks_witness :
  manager_wf world_two ∧
  board_notes (UiCreatedAt.sortNotesByTimestamp Desc world_two) ≡ₚ
    getAllNotes (manager world_two) ∧
  ∀ i l, board_notes (UiCreatedAt.sortNotesByTimestamp Desc world_two) !! i = Some l →
    ∃ n, heap (UiCreatedAt.sortNotesByTimestamp Desc world_two) !! l = Some n ∧
         note_x n = Some 20 ∧ note_y n = Some (20 + 160 * Z.of_nat i).
Proof.
  split; [apply world_two_wf|].
  apply (UiCreatedAt_sort_stacks Desc world_two), world_two_wf.
Defined.

Lemma UiTimestamp_missing_earliest_witness :
  (1%nat ∈ getAllNotes (manager world_missing_last) ∧
   prop timestamp world_missing_last 1%nat = JUndefined ∧
   ∀ l, l ∈ getAllNotes (manager world_missing_last) → l ≠ 1%nat →
        ∃ t, creation_time TimestampCopy world_missing_last l = Some t ∧ 0 < t) ∧
  head (board_notes (UiTimestamp.sortNotesByTimestamp Asc world_missing_last)) = Some 1%nat ∧
  last (board_notes (UiTimestamp.sortNotesByTimestamp Desc world_missing_last)) = Some 1%nat.
Proof.
  assert (∀ l, l ∈ getAllNotes (manager world_missing_last) → l ≠ 1%nat →
               ∃ t, creation_time TimestampCopy world_missing_last l = Some t ∧ 0 < t)
    as Hothers.
  { intros l Hl Hne. vm_compute in Hl.
    apply elem_of_cons in Hl as [->|Hl]; [exists 5; by vm_compute|].
    apply elem_of_cons in Hl as [->|Hl]; [done|]. by apply elem_of_nil in Hl. }
  split.
  - split; [|split; [reflexivity|exact Hothers]].
    vm_compute. by right; left.
  - apply (UiTimestamp_missing_earliest world_missing_last 1%nat);
      [vm_compute; by right; left|reflexivity|exact Hothers].
Defined.

(** ** Rendering a timestamp, in the copy that reads [createdAt] *)




(** ** Dragging: from mousedown to mouseup *)



Example drag_sample :
  trace (mousemove_listener 0%nat sample_move roomy_layout
           (mousedown_listener 0%nat TElsewhere (mkMouseEvent 120 80) roomy_layout
              world_rendered)) = [CUpdatePosition 0%nat (Some 30) (Some 30)].
Proof. vm_compute. reflexivity. Qed.

Lemma listeners_ext (w w' : World) :
  listening <$> elements w' = listening <$> elements w → listeners w' = listeners w.
Proof.
  intros Hl. unfold listeners.
  assert (List.length (elements w') = List.length (elements w)) as ->.
  { by rewrite <- (length_fmap listening (elements w')), Hl, length_fmap. }
  apply list_filter_iff. intros e. by rewrite <- !list_lookup_fmap, Hl.
Qed.

Lemma mouseup_listener_lookup (e : ElemId) (w : World) (j : nat) (el' : Element) :
  elements (mouseup_listener e w) !! j = Some el' →
  ∃ el, elements w !! j = Some el ∧ listening el' = listening el ∧
        (isDragging el' = true → isDragging el = true ∧ j ≠ e).
Proof.
  unfold mouseup_listener.
  destruct (elements w !! e) as [el0|] eqn:He.
  - destruct (isDragging el0) eqn:Hd.
    + simpl. destruct (decide (e = j)) as [->|Hne].
      * rewrite !list_lookup_alter_eq, He. simpl. intros [= <-]. by exists el0.
      * rewrite !list_lookup_alter_ne by done. intros Hj. exists el'. by auto.
    + intros Hj. exists el'. repeat split; [done..|]. intros ->. congruence.
  - intros Hj. exists el'. repeat split; [done..|]. intros ->. congruence.
Qed.

Lemma mouseup_listener_listening (e : ElemId) (w : World) :
  listening <$> elements (mouseup_listener e w) = listening <$> elements w.
Proof.
  unfold mouseup_listener.
  destruct (elements w !! e) as [el0|]; [|done].
  destruct (isDragging el0); [|done]. simpl.
  rewrite alter_alter, (list_fmap_alter listening _ (λ x, x)).
  - by apply list_alter_id.
  - by apply Forall_forall.
Qed.

Lemma mouseup_listener_idle (e : ElemId) (js : list ElemId) (w : World) :
  idle_at js w → idle_at js (mouseup_listener e w).
Proof.
  intros Hjs j el' Hj Hel'.
  destruct (mouseup_listener_lookup e w j el' Hel') as (el & Hel & _ & Hd).
  destruct (isDragging el') eqn:Hd'; [|done].
  destruct Hd as [Hd _]; [done|]. by rewrite (Hjs j el Hj Hel) in Hd.
Qed.

Lemma fold_mouseup_keeps_idle (es js : list ElemId) (w : World) :
  idle_at js w → idle_at js (foldl (λ w e, mouseup_listener e w) w es).
Proof.
  revert w. induction es as [|e es IH]; intros w Hjs; [done|].
  cbn [foldl]. by apply IH, mouseup_listener_idle.
Qed.

Lemma fold_mouseup_idle (es : list ElemId) (w : World) :
  idle_at es (foldl (λ w e, mouseup_listener e w) w es) ∧
  listening <$> elements (foldl (λ w e, mouseup_listener e w) w es) =
    listening <$> elements w.
Proof.
  revert w. induction es as [|e es IH]; intros w.
  { split; [|done]. intros j el Hj. by apply elem_of_nil in Hj. }
  cbn [foldl]. destruct (IH (mouseup_listener e w)) as (Hidle & Hl).
  split.
  - intros j el' Hj Hel'. apply elem_of_cons in Hj as [->|Hj]; [|by eapply Hidle].
    eapply (fold_mouseup_keeps_idle es [e] (mouseup_listener e w));
      [|by apply list_elem_of_singleton|exact Hel'].
    intros j el1 Hj1 Hel1. apply list_elem_of_singleton in Hj1 as ->.
    destruct (mouseup_listener_lookup e w e el1 Hel1) as (el0 & _ & _ & Hd).
    destruct (isDragging el1); [|done]. by destruct Hd.
  - by rewrite Hl, mouseup_listener_listening.
Qed.

Lemma document_mousemove_idle (ev : MouseEvent) (lay : Layout) (w : World) :
  idle_at (listeners w) w → document_mousemove ev lay w = w.
Proof.
  unfold document_mousemove. generalize (listeners w) as es. intros es Hidle.
  induction es as [|e es IH]; [done|]. cbn [foldl].
  assert (mousemove_listener e ev lay w = w) as ->.
  { unfold mousemove_listener. destruct (elements w !! e) as [el|] eqn:He; [|done].
    by rewrite (Hidle e el) by (done || by left). }
  apply IH. intros j el Hj. apply Hidle. by right.
Qed.

(** A mouseup ends every drag: the mouse move that follows it moves no note
    and makes no call, whatever was being dragged (both copies). *)
Theorem mouseup_ends_drag (c : Copy) (ev : MouseEvent) (lay : Layout) (w : World) :
  handle c (EMouseMove ev lay) (handle c EMouseUp w) = handle c EMouseUp w ∧
  idle_at (listeners w) (handle c EMouseUp w).
Proof.
  assert (handle c EMouseUp w = document_mouseup w) as -> by (by destruct c).
  assert (∀ w', handle c (EMouseMove ev lay) w' = document_mousemove ev lay w') as ->
    by (by destruct c).
  unfold document_mouseup.
  destruct (fold_mouseup_idle (listeners w) w) as (Hidle & Hl).
  split; [|done]. apply document_mousemove_idle.
  by rewrite (listeners_ext _ _ Hl).
Qed.

Lemma document_mousemove_idle_note_witness :
  (∀ e el, elements world_dragging !! e = Some el → el_note el = 1%nat →
           isDragging el = false) ∧
  heap (document_mousemove sample_move wide_layout world_dragging) !! 1%nat =
    heap world_dragging !! 1%nat.
Proof.
  assert (∀ e el, elements world_dragging !! e = Some el → el_note el = 1%nat →
                  isDragging el = false) as Hidle.
  { intros [|[|e]] el He Hl; vm_compute in He; [| |done];
      injection He as <-; [discriminate Hl|reflexivity]. }
  split; [exact Hidle|].
  apply (document_mousemove_idle_note 1%nat sample_move wide_layout world_dragging Hidle).
Defined.

Example mouseup_sample :
  (λ w, (isDragging <$> elements w, trace w))
    (handle CreatedAtCopy (EMouseMove sample_move wide_layout)
       (handle CreatedAtCopy EMouseUp world_dragging)) = ([false; false], []).
Proof. vm_compute. reflexivity. Qed.

(** ** Attaching an image: from the selection to the load *)

(** An image-typed first file is read, and when the read is done the data
    URL is the image of the note (under the property name of the copy) and
    the source of the preview, which is displayed; the other notes, the
    manager and the reads that were pending before are as they were. *)
Theorem image_attach_round_trip (c : Copy) (w : World) (e : ElemId) (el : Element)
    (file : File) (rest : list File) :
  elements w !! e = Some el →
  listening el = true →
  is_image file = true →
  heap (handle c (EReaderLoad (List.length (readers w)))
          (handle c (EImageChange e (file :: rest)) w)) =
    alter (match c with
           | CreatedAtCopy => set_imageData
           | TimestampCopy => set_imageDataUrl
           end (JStr (file_dataUrl file))) (el_note el) (heap w) ∧
  elements (handle c (EReaderLoad (List.length (readers w)))
              (handle c (EImageChange e (file :: rest)) w)) !! e =
    Some (set_imagePreview (JStr (file_dataUrl file)) "block" el) ∧
  readers (handle c (EReaderLoad (List.length (readers w)))
             (handle c (EImageChange e (file :: rest)) w)) = readers w ∧
  manager (handle c (EReaderLoad (List.length (readers w)))
             (handle c (EImageChange e (file :: rest)) w)) = manager w ∧
  trace (handle c (EReaderLoad (List.length (readers w)))
           (handle c (EImageChange e (file :: rest)) w)) =
    (trace w ++ [CReadAsDataURL e file])%list.
Proof.
  intros He Hl Hi.
  assert (bool_decide ((listening <$> elements w !! e) = Some true) = true) as Hlist.
  { rewrite He. simpl. by rewrite Hl, bool_decide_eq_true_2. }
  destruct c; simpl;
    unfold UiCreatedAt.is_listening, UiTimestamp.is_listening; rewrite Hlist;
    unfold UiCreatedAt.imageInput_change, UiTimestamp.imageInput_change;
    simpl; rewrite Hi;
    unfold UiCreatedAt.reader_onload, UiTimestamp.reader_onload; simpl;
    rewrite list_lookup_middle by done; simpl; rewrite He; simpl;
    rewrite list_lookup_alter_eq, He;
    by rewrite (delete_middle (readers w) []), app_nil_r.
Qed.

Lemma image_attach_round_trip_witness :
  (elements world_rendered !! 0%nat = Some (element_of world_rendered 0) ∧
   listening (element_of world_rendered 0) = true ∧
   is_image image_file = true) ∧
  heap (handle TimestampCopy (EReaderLoad (List.length (readers world_rendered)))
          (handle TimestampCopy (EImageChange 0%nat (image_file :: [text_file]))
             world_rendered)) =
    alter (set_imageDataUrl (JStr (file_dataUrl image_file)))
          (el_note (element_of world_rendered 0)) (heap world_rendered).
Proof.
  split; [repeat split; vm_compute; reflexivity|].
  apply (image_attach_round_trip TimestampCopy world_rendered 0%nat
           (element_of world_rendered 0) image_file [text_file]);
    vm_compute; reflexivity.
Defined.

(** ** The bootstrap: what it keeps and what it shows *)

(** A saved record whose [timestamp] is truthy goes into the heap as it is:
    main.js never replaces a timestamp that is there, be it a valid date or
    not. *)
Theorem bootstrap_keeps_timestamp (c : Copy) (now : nat → string)
    (records : list Note) (i : nat) (r : Note) :
  records !! i = Some r →
  truthy (timestamp r) = true →
  heap (Main.bootstrap c now (Main.SavedArray records)) !! i = Some r.
Proof.
  intros Hr Ht. simpl.
  destruct (renderAllNotes_frame c (Main.forEach_saved now 0 records Main.initial))
    as [-> _].
  destruct (forEach_saved_spec now records 0 Main.initial eq_refl) as [-> _].
  simpl. rewrite backfilled_lookup, Hr. simpl. unfold backfill. by rewrite Ht.
Qed.

Lemma bootstrap_keeps_timestamp_witness :
  ([sample_note "a" 300 40 JUndefined (JStr "yesterday")] !! 0%nat =
     Some (sample_note "a" 300 40 JUndefined (JStr "yesterday")) ∧
   truthy (timestamp (sample_note "a" 300 40 JUndefined (JStr "yesterday"))) = true) ∧
  heap (Main.bootstrap CreatedAtCopy sample_clock
          (Main.SavedArray [sample_note "a" 300 40 JUndefined (JStr "yesterday")])) !! 0%nat =
    Some (sample_note "a" 300 40 JUndefined (JStr "yesterday")).
Proof.
  split; [split; vm_compute; reflexivity|].
  apply (bootstrap_keeps_timestamp CreatedAtCopy sample_clock
           [sample_note "a" 300 40 JUndefined (JStr "yesterday")] 0%nat);
    vm_compute; reflexivity.
Defined.

(** ** Rendering: the elements that are made *)

Lemma alter_new {A} (f : A → A) (l : list A) (x : A) :
  alter f (List.length l) (l ++ [x])%list = (l ++ [f x])%list.
Proof. induction l as [|y l IH]; simpl; [done|]. f_equal. apply IH. Qed.

Lemma renderTimestamp_elements (c : Copy) (e : ElemId) (ts : JsValue) (w : World) :
  elements (match c with
            | CreatedAtCopy => UiCreatedAt.renderTimestamp
            | TimestampCopy => UiTimestamp.renderTimestamp
            end e ts w) = alter (shown_timestamp c ts) e (elements w) ∧
  elements (match c with
            | CreatedAtCopy => UiCreatedAt.renderTimestamp
            | TimestampCopy => UiTimestamp.renderTimestamp
            end e ts w) !! e = shown_timestamp c ts <$> elements w !! e.
Proof.
  assert (∀ t t' (es : list Element),
            alter (set_timestampEl t) e (alter (set_timestampEl t') e es) =
            alter (set_timestampEl t) e es) as Htwice.
  { intros t t' es. rewrite alter_alter. by apply list_alter_ext. }
  assert (elements (match c with
                    | CreatedAtCopy => UiCreatedAt.renderTimestamp
                    | TimestampCopy => UiTimestamp.renderTimestamp
                    end e ts w) = alter (shown_timestamp c ts) e (elements w)) as Hel.
  { destruct c; unfold UiCreatedAt.renderTimestamp, UiTimestamp.renderTimestamp,
      shown_timestamp; cbn zeta.
    - destruct (isNaN (getTime (new_Date ts))).
      + simpl. symmetry. by apply list_alter_id.
      + destruct (timestampEl <$> elements w !! e) as [[?|]|]; simpl; by rewrite ?Htwice.
    - destruct (timestampEl <$> elements w !! e) as [[?|]|]; simpl; by rewrite ?Htwice. }
  split; [done|]. rewrite Hel. apply list_lookup_alter_eq.
Qed.

Lemma setup_elements (c : Copy) (e : ElemId) (l : Loc) (w : World) :
  elements (match c with
            | CreatedAtCopy => UiCreatedAt.setupNoteEventListeners
            | TimestampCopy => UiTimestamp.setupNoteEventListeners
            end e l w) =
  alter (set_up c (prop (image_field c) w l) (prop (creation_field c) w l)) e (elements w).
Proof.
  destruct c; unfold UiCreatedAt.setupNoteEventListeners,
    UiTimestamp.setupNoteEventListeners, set_up; cbn zeta; simpl.
  - destruct (truthy (prop imageData w l));
      change (prop createdAt (with_element e ?f w) l) with (prop createdAt w l);
      destruct (truthy (prop createdAt w l));
      rewrite ?(proj1 (renderTimestamp_elements CreatedAtCopy _ _ _)); simpl;
      rewrite !alter_alter; by apply list_alter_ext.
  - destruct (truthy (prop imageDataUrl w l));
      change (prop timestamp (with_element e ?f w) l) with (prop timestamp w l);
      destruct (truthy (prop timestamp w l));
      rewrite ?(proj1 (renderTimestamp_elements TimestampCopy _ _ _)); simpl;
      rewrite !alter_alter; by apply list_alter_ext.
Qed.

Lemma set_up_ready (c : Copy) (image ts : JsValue) (l : Loc) :
  ready (set_up c image ts (fresh_element l)) ∧
  el_note (set_up c image ts (fresh_element l)) = l.
Proof.
  unfold set_up, shown_timestamp, ready. cbn zeta.
  destruct c; repeat case_match; done.
Qed.

Lemma shown_timestamp_ready (c : Copy) (ts : JsValue) (el : Element) :
  (ready el → ready (shown_timestamp c ts el)) ∧
  el_note (shown_timestamp c ts el) = el_note el.
Proof.
  unfold shown_timestamp, ready. cbn zeta. destruct c; repeat case_match; done.
Qed.

Lemma adds_elements_fresh (ls : list Loc) (w w' : World) :
  board_fresh w → adds_elements ls w w' → board_fresh w'.
Proof.
  intros Hfresh (new & Hel & Hnotes & _ & Hb). unfold board_fresh in *.
  assert (List.length new = List.length ls) as Hlen
    by (by rewrite <- Hnotes, length_fmap).
  rewrite Hb, Hel, length_app, Hlen. apply Forall_app. split.
  - eapply Forall_impl; [exact Hfresh|]. intros; simpl in *; lia.
  - apply Forall_forall. intros j Hj. apply elem_of_seq in Hj. lia.
Qed.

Lemma adds_elements_app (ls ls' : list Loc) (w w1 w2 : World) :
  adds_elements ls w w1 → adds_elements ls' w1 w2 →
  adds_elements (ls ++ ls') w w2.
Proof.
  intros (new & Hel & Hnotes & Hready & Hb) (new' & Hel' & Hnotes' & Hready' & Hb').
  assert (List.length new = List.length ls) as Hlen
    by (by rewrite <- Hnotes, length_fmap).
  exists (new ++ new')%list. repeat split.
  - by rewrite Hel', Hel, app_assoc.
  - by rewrite fmap_app, Hnotes, Hnotes'.
  - by apply Forall_app.
  - rewrite Hb', Hb, Hel, !length_app, Hlen, seq_app. by rewrite <- app_assoc.
Qed.

Lemma adds_elements_one (l : Loc) (el : Element) (w w' : World) :
  board_fresh w →
  elements w' = (elements w ++ [el])%list →
  el_note el = l → ready el →
  board w' = (filter (λ c, c ≠ List.length (elements w)) (board w)
              ++ [List.length (elements w)])%list →
  adds_elements [l] w w'.
Proof.
  intros Hfresh Hel Hl Hready Hb. exists [el]. repeat split; [done|by rewrite <- Hl|by constructor|].
  rewrite Hb. f_equal. apply filter_all.
  eapply Forall_impl; [exact Hfresh|]. intros; simpl in *; lia.
Qed.

Section RenderFold.
Context {St : Type} (world : St → World) (step : St → Loc → St).
Hypothesis step_adds :
  ∀ st l, board_fresh (world st) → adds_elements [l] (world st) (world (step st l)).

Lemma fold_adds_elements (ls : list Loc) (st : St) :
  board_fresh (world st) →
  adds_elements ls (world st) (world (foldl step st ls)).
Proof.
  revert st. induction ls as [|l ls IH]; intros st Hfresh.
  - exists []. simpl. by rewrite !app_nil_r.
  - cbn [foldl]. apply (adds_elements_app [l] ls _ (world (step st l))).
    + by apply step_adds.
    + apply IH. eapply adds_elements_fresh; [exact Hfresh|by apply step_adds].
Qed.
End RenderFold.

Lemma with_element_elements (e : ElemId) (f : Element → Element) (w : World) :
  elements (with_element e f w) = alter f e (elements w).
Proof. done. Qed.

Lemma set_style_ready (p : string) (a b : JsNumber) (el : Element) :
  (ready el → ready (set_style p a b el)) ∧ el_note (set_style p a b el) = el_note el.
Proof. done. Qed.

Lemma UiCreatedAt_place_adds (st : Z * World) (l : Loc) :
  board_fresh st.2 → adds_elements [l] st.2 (UiCreatedAt.place st l).2.
Proof.
  destruct st as [o w]. cbn [snd]. intros Hfresh.
  pose proof (UiCreatedAt_place_spec o w l) as Hp. cbv zeta in Hp.
  destruct Hp as (_ & _ & _ & _ & _ & Hb).
  assert (∃ el, elements (UiCreatedAt.place (o, w) l).2 = (elements w ++ [el])%list ∧
                el_note el = l ∧ ready el) as (el & Hel & Hl & Hready).
  { unfold UiCreatedAt.place, createElement. cbn zeta. cbn [snd].
    set (w1 := note_updatePosition l _ _ w).
    set (e := List.length (elements w1)).
    set (w2 := set_elements _ w1).
    set (w3 := UiCreatedAt.setupNoteEventListeners e l w2).
    set (w4 := with_element e _ w3).
    set (w5 := appendChild e w4).
    assert (elements w3 =
            (elements w ++ [set_up CreatedAtCopy (prop imageData w2 l)
                              (prop createdAt w2 l) (fresh_element l)])%list) as H3.
    { unfold w3. rewrite (setup_elements CreatedAtCopy). apply (alter_new _ (elements w)). }
    eexists. split; [|split].
    - rewrite (proj1 (renderTimestamp_elements CreatedAtCopy _ _ _)).
      change (elements w5) with (elements w4). unfold w4.
      rewrite with_element_elements, H3.
      unfold e. change (elements w1) with (elements w).
      rewrite !alter_new. reflexivity.
    - rewrite (proj2 (shown_timestamp_ready _ _ _)), (proj2 (set_style_ready _ _ _ _)).
      apply set_up_ready.
    - apply shown_timestamp_ready, set_style_ready, set_up_ready. }
  by eapply adds_elements_one.
Qed.

Lemma render_step_adds (c : Copy) (w : World) (l : Loc) :
  board_fresh w →
  adds_elements [l] w
    (let '(e, w) := createElement l w in
     appendChild e (match c with
                    | CreatedAtCopy => UiCreatedAt.setupNoteEventListeners
                    | TimestampCopy => UiTimestamp.setupNoteEventListeners
                    end e l w)).
Proof.
  intros Hfresh. unfold createElement. cbn zeta.
  set (w2 := set_elements _ w).
  eapply (adds_elements_one l (set_up c (prop (image_field c) w2 l)
                                 (prop (creation_field c) w2 l) (fresh_element l)));
    [done| |apply set_up_ready..|].
  - change (elements (appendChild ?e ?x)) with (elements x).
    rewrite (setup_elements c). apply (alter_new _ (elements w)).
  - assert (board (match c with
                   | CreatedAtCopy => UiCreatedAt.setupNoteEventListeners
                   | TimestampCopy => UiTimestamp.setupNoteEventListeners
                   end (List.length (elements w)) l w2) = board w) as Hb.
    { destruct c.
      - by destruct (UiCreatedAt_setup_dom_only (List.length (elements w)) l w2)
          as (_ & _ & -> & _).
      - by destruct (UiTimestamp_setup_dom_only (List.length (elements w)) l w2)
          as (_ & _ & -> & _). }
    cbn [appendChild board set_board]. by rewrite Hb.
Qed.

Lemma filter_ext_in {A} (P Q : A → Prop) `{∀ x, Decision (P x)} `{∀ x, Decision (Q x)}
    (l : list A) :
  (∀ x, x ∈ l → P x ↔ Q x) → filter P l = filter Q l.
Proof.
  induction l as [|x l IH]; intros Hpq; [done|].
  rewrite !filter_cons, IH by (intros; apply Hpq; by right).
  destruct (Hpq x) as [H1 H2]; [by left|].
  repeat case_decide; tauto.
Qed.

Lemma filter_none {A} (P : A → Prop) `{∀ x, Decision (P x)} (l : list A) :
  Forall (λ x, ¬ P x) l → filter P l = [].
Proof.
  induction 1 as [|x l Hx _ IH]; [done|].
  by rewrite filter_cons, decide_False.
Qed.

Lemma adds_elements_board_notes (ls : list Loc) (w w' : World) :
  adds_elements ls (set_board [] w) w' → board_notes w' = ls.
Proof.
  intros (new & Hel & Hnotes & _ & Hb). simpl in Hel, Hb.
  assert (List.length new = List.length ls) as Hlen
    by (by rewrite <- Hnotes, length_fmap).
  unfold board_notes. rewrite Hb, Hel, <- Hlen, <- Hnotes. clear.
  generalize (elements w) as old. intros old.
  induction new as [|el new IH] using rev_ind; [done|].
  rewrite length_app. simpl. rewrite seq_app, omap_app. simpl.
  rewrite fmap_app. f_equal.
  - rewrite <- IH. apply omap_agree, Forall_forall. intros j Hj.
    apply elem_of_seq in Hj. rewrite app_assoc.
    rewrite (lookup_app_l (old ++ new)); [done|]. rewrite length_app. lia.
  - rewrite app_assoc, <- length_app. by rewrite list_lookup_middle.
Qed.

Lemma adds_elements_listeners (ls : list Loc) (w w' : World) :
  adds_elements ls (set_board [] w) w' →
  listeners w' = (listeners w ++ board w')%list ∧
  ∀ e el, elements w !! e = Some el → elements w' !! e = Some el.
Proof.
  intros (new & Hel & Hnotes & Hready & Hb). simpl in Hel, Hb.
  assert (List.length new = List.length ls) as Hlen
    by (by rewrite <- Hnotes, length_fmap).
  split; [|intros e el He; rewrite Hel; by apply lookup_app_l_Some].
  unfold listeners. rewrite Hb, Hel, length_app, seq_app, filter_app, Hlen. f_equal.
  - apply filter_ext_in. intros e He. apply elem_of_seq in He.
    rewrite lookup_app_l; [done|lia].
  - apply filter_all, Forall_forall. intros e He. apply elem_of_seq in He.
    destruct (lookup_lt_is_Some_2 new (e - List.length (elements w))) as [el Hnew]; [lia|].
    rewrite lookup_app_r, Hnew by lia. simpl. f_equal.
    rewrite Forall_forall in Hready. apply (Hready el).
    by eapply list_elem_of_lookup_2.
Qed.

Lemma fold_element_remove (es : list ElemId) (w : World) :
  elements (foldl (λ w e, element_remove e w) w es) = elements w ∧
  board (foldl (λ w e, element_remove e w) w es) = filter (λ c, c ∉ es) (board w).
Proof.
  revert w. induction es as [|e es IH]; intros w.
  - split; [done|]. simpl. symmetry. apply filter_all, Forall_forall.
    intros c _. apply not_elem_of_nil.
  - cbn [foldl]. destruct (IH (element_remove e w)) as [-> ->].
    split; [done|]. simpl. rewrite list_filter_filter.
    apply list_filter_iff. intros c. rewrite not_elem_of_cons. tauto.
Qed.

Lemma sort_adds_elements (c : Copy) (order : Order) (w : World) :
  adds_elements (board_notes (sortNotesByTimestamp c order w)) (set_board [] w)
    (sortNotesByTimestamp c order w).
Proof.
  rewrite board_notes_sort. destruct c; simpl.
  - unfold UiCreatedAt.sortNotesByTimestamp. cbn zeta.
    apply (fold_adds_elements snd UiCreatedAt.place UiCreatedAt_place_adds _
             (20, set_board [] w)).
    apply board_fresh_empty.
  - unfold UiTimestamp.sortNotesByTimestamp. cbn zeta.
    apply (fold_adds_elements (λ w, w) UiTimestamp.place
             (render_step_adds TimestampCopy) _ (set_board [] w)).
    apply board_fresh_empty.
Qed.

Lemma renderAllNotes_adds_elements (c : Copy) (w : World) :
  adds_elements (getAllNotes (manager w)) (set_board [] w) (renderAllNotes c w).
Proof.
  destruct c; simpl.
  - unfold UiCreatedAt.renderAllNotes. cbn zeta.
    apply (fold_adds_elements (λ w, w) _ (render_step_adds CreatedAtCopy) _
             (set_board [] w)).
    apply board_fresh_empty.
  - unfold UiTimestamp.renderAllNotes. cbn zeta.
    set (w0 := foldl (λ w e, element_remove e w) w (board w)).
    destruct (fold_element_remove (board w) w) as [Hel Hb]. fold w0 in Hel, Hb.
    assert (board w0 = []) as Hb0.
    { rewrite Hb. apply filter_none, Forall_forall. by intros c Hc Hnot. }
    assert (adds_elements (getAllNotes (manager w0)) w0
              (foldl UiTimestamp.place w0 (getAllNotes (manager w0))))
      as (new & Hnew & Hnotes & Hready & Hboard).
    { apply (fold_adds_elements (λ w, w) UiTimestamp.place
               (render_step_adds TimestampCopy)).
      unfold board_fresh. rewrite Hb0. constructor. }
    assert (∀ es w1, manager (foldl (λ w e, element_remove e w) w1 es) = manager w1)
      as Hrm.
    { intros es. induction es as [|e es IH]; intros w1; [done|].
      cbn [foldl]. by rewrite IH. }
    assert (manager w0 = manager w) as Hm by apply Hrm.
    rewrite Hm in *. exists new. simpl. by rewrite Hnew, Hboard, Hel, Hb0.
Qed.

(** [renderAllNotes] shows the notes of the manager, in the order in which
    the manager holds them, each by a new element that is listening and at
    rest, and changes neither a note nor the manager (both copies). *)
Theorem renderAllNotes_shows_manager (c : Copy) (w : World) :
  board_notes (renderAllNotes c w) = getAllNotes (manager w) ∧
  heap (renderAllNotes c w) = heap w ∧
  manager (renderAllNotes c w) = manager w ∧
  Forall (λ e, ∃ el, elements (renderAllNotes c w) !! e = Some el ∧ ready el)
         (board (renderAllNotes c w)).
Proof.
  pose proof (renderAllNotes_adds_elements c w) as Hadds.
  split; [exact (adds_elements_board_notes _ w _ Hadds)|].
  destruct (renderAllNotes_frame c w) as [Hh Hm]. split; [done|]. split; [done|].
  destruct Hadds as (new & Hel & Hnotes & Hready & Hb). simpl in Hel, Hb.
  assert (List.length new = List.length (getAllNotes (manager w))) as Hlen
    by (by rewrite <- Hnotes, length_fmap).
  rewrite Hb, Hel. apply Forall_forall. intros e He. apply elem_of_seq in He.
  destruct (lookup_lt_is_Some_2 new (e - List.length (elements w))) as [el Hnew]; [lia|].
  exists el. split; [by rewrite lookup_app_r, Hnew by lia|].
  rewrite Forall_forall in Hready. apply Hready. by eapply list_elem_of_lookup_2.
Qed.

(** A sort takes no listener away: the elements that were there stay as
    they were, a drag in progress included, and their listeners on the
    document stay installed; the children of the board are new listening
    elements, one for each note of the manager (both copies). *)
Theorem sort_keeps_old_listeners (c : Copy) (order : Order) (w : World) :
  listeners (sortNotesByTimestamp c order w) =
    (listeners w ++ board (sortNotesByTimestamp c order w))%list ∧
  (∀ e el, elements w !! e = Some el →
           elements (sortNotesByTimestamp c order w) !! e = Some el) ∧
  board (sortNotesByTimestamp c order w) =
    seq (List.length (elements w)) (List.length (manager w)).
Proof.
  pose proof (sort_adds_elements c order w) as Hadds.
  destruct (adds_elements_listeners _ _ _ Hadds) as [Hl Hold].
  split; [done|]. split; [done|].
  destruct Hadds as (_ & _ & _ & _ & ->). simpl.
  rewrite board_notes_sort, (Array_sort_Permutation _ (getAllNotes (manager w))).
  unfold getAllNotes. by rewrite length_fmap.
Qed.

Lemma Map_set_fresh (k : string) (l : Loc) (m : NoteManager) :
  k ∉ m.*1 → Map_set k l m = (m ++ [(k, l)])%list.
Proof.
  induction m as [|[k' l'] m IH]; intros Hk; [done|].
  rewrite fmap_cons in Hk. apply not_elem_of_cons in Hk as [Hne Hk].
  cbn [Map_set]. destruct (String.eqb_spec k k') as [->|_]; [done|].
  by rewrite IH.
Qed.

Lemma forEach_saved_manager (now : nat → string) (records : list Note) (i : nat)
    (w : World) :
  i = List.length (heap w) →
  NoDup ((manager w).*1 ++ (note_id <$> records)) →
  manager (Main.forEach_saved now i records w) =
    (manager w ++ zip (note_id <$> records) (seq i (List.length records)))%list.
Proof.
  revert i w. induction records as [|r records IH]; intros i w Hi Hnd.
  { simpl. by rewrite app_nil_r. }
  simpl. unfold Main.new_Note, addNote. cbn zeta. simpl.
  rewrite list_lookup_middle by done.
  assert (∀ r', note_id (if negb (truthy (timestamp r))
                         then set_timestamp (JStr (now i)) r' else r') = note_id r') as Hid
    by (intros; by destruct (negb _)).
  rewrite Hid. rewrite fmap_cons in Hnd.
  apply NoDup_app in Hnd as (Hnd1 & Hdisj & Hnd2).
  apply NoDup_cons in Hnd2 as [Hr Hnd2].
  rewrite Map_set_fresh by (intros Hin; apply (Hdisj _ Hin); by left).
  rewrite IH.
  - simpl. rewrite <- app_assoc. simpl. by rewrite Hi.
  - simpl. rewrite length_app. simpl. lia.
  - simpl. rewrite fmap_app. simpl. rewrite <- app_assoc. simpl.
    apply NoDup_app. repeat split; [done| |by constructor].
    intros k Hk Hin. apply (Hdisj k Hk). done.
Qed.

(** When the saved records have pairwise distinct ids, the bootstrap puts
    the [i]-th record under its id at the [i]-th place of the manager and
    shows the notes on the board in the order in which they were saved. *)
Theorem bootstrap_shows_saved_notes (c : Copy) (now : nat → string) (records : list Note) :
  NoDup (note_id <$> records) →
  manager (Main.bootstrap c now (Main.SavedArray records)) =
    zip (note_id <$> records) (seq 0 (List.length records)) ∧
  board_notes (Main.bootstrap c now (Main.SavedArray records)) =
    seq 0 (List.length records) ∧
  heap (Main.bootstrap c now (Main.SavedArray records)) = backfilled now 0 records.
Proof.
  intros Hnd. simpl.
  set (w0 := Main.forEach_saved now 0 records Main.initial).
  assert (manager w0 = zip (note_id <$> records) (seq 0 (List.length records))) as Hm0.
  { unfold w0. by rewrite forEach_saved_manager. }
  destruct (renderAllNotes_frame c w0) as [Hh Hm].
  rewrite (adds_elements_board_notes _ _ _ (renderAllNotes_adds_elements c w0)).
  rewrite Hm, Hh, Hm0. split; [done|]. split.
  - unfold getAllNotes. apply snd_zip. by rewrite length_fmap, length_seq.
  - unfold w0. by destruct (forEach_saved_spec now records 0 Main.initial eq_refl) as [-> _].
Qed.

Lemma bootstrap_shows_saved_notes_witness :
  NoDup (note_id <$> sample_records) ∧
  board_notes (Main.bootstrap CreatedAtCopy sample_clock (Main.SavedArray sample_records)) =
    seq 0 (List.length sample_records).
Proof.
  assert (NoDup (note_id <$> sample_records)) as Hnd.
  { vm_compute. apply (bool_decide_unpack _). vm_compute. exact I. }
  split; [exact Hnd|].
  apply (bootstrap_shows_saved_notes CreatedAtCopy sample_clock sample_records Hnd).
Defined.

(** ** Creating a note *)

Lemma createNewNote_spec (c : Copy) (k now : string) (ev : MouseEvent) (lay : Layout)
    (w : World) :
  let w' := (createNewNote c k now (clientX ev) (clientY ev) lay w).2 in
  heap w' = (heap w ++ [new_note c k now ev lay])%list ∧
  manager w' = Map_set k (List.length (heap w)) (manager w) ∧
  readers w' = readers w ∧
  el_notes w' = (el_notes w ++ [List.length (heap w)])%list ∧
  board w' = (filter (λ x, x ≠ List.length (elements w)) (board w)
              ++ [List.length (elements w)])%list.
Proof.
  destruct c; unfold createNewNote, createNote, createElement, new_note;
    cbv beta iota zeta; cbn [note_content note_x note_y createdAt timestamp imageData imageDataUrl].
  - set (n := mkNote k "" _ _ _ _ _ _).
    set (w1 := set_heap (heap w ++ [n])%list w).
    assert (addNote (List.length (heap w)) w1 =
            set_manager (Map_set k (List.length (heap w)) (manager w)) w1) as ->.
    { unfold addNote, w1. simpl. by rewrite list_lookup_middle. }
    set (w2 := set_manager _ w1).
    set (e := List.length (elements w2)).
    set (w3 := set_elements _ w2).
    set (w4 := UiCreatedAt.setupNoteEventListeners e (List.length (heap w)) w3).
    set (w5 := appendChild e w4).
    destruct (UiCreatedAt_setup_dom_only e (List.length (heap w)) w3)
      as (H4h & H4m & H4b & H4r & H4n).
    destruct (UiCreatedAt_renderTimestamp_dom_only e (JStr now) w5)
      as (H6h & H6m & H6b & H6r & H6n).
    fold w4 in H4h, H4m, H4b, H4r, H4n. cbn [snd].
    rewrite H6h, H6m, H6r, H6n, H6b. repeat split.
    + transitivity (heap w4); [reflexivity|]. by rewrite H4h.
    + transitivity (manager w4); [reflexivity|]. by rewrite H4m.
    + transitivity (readers w4); [reflexivity|]. by rewrite H4r.
    + transitivity (el_notes w4); [reflexivity|]. rewrite H4n.
      unfold el_notes, w3. simpl. by rewrite fmap_app.
    + transitivity (filter (λ x, x ≠ e) (board w4) ++ [e])%list; [reflexivity|].
      by rewrite H4b.
  - set (n := mkNote k "" _ _ _ _ _ _).
    set (w1 := set_heap (heap w ++ [n])%list w).
    assert (addNote (List.length (heap w)) w1 =
            set_manager (Map_set k (List.length (heap w)) (manager w)) w1) as ->.
    { unfold addNote, w1. simpl. by rewrite list_lookup_middle. }
    set (w2 := set_manager _ w1).
    set (e := List.length (elements w2)).
    set (w3 := set_elements _ w2).
    set (w4 := UiTimestamp.setupNoteEventListeners e (List.length (heap w)) w3).
    set (w5 := appendChild e w4).
    destruct (UiTimestamp_setup_dom_only e (List.length (heap w)) w3)
      as (H4h & H4m & H4b & H4r & H4n).
    destruct (UiTimestamp_renderTimestamp_dom_only e (JStr now) w5)
      as (H6h & H6m & H6b & H6r & H6n).
    fold w4 in H4h, H4m, H4b, H4r, H4n. cbn [snd].
    rewrite H6h, H6m, H6r, H6n, H6b. repeat split.
    + transitivity (heap w4); [reflexivity|]. by rewrite H4h.
    + transitivity (manager w4); [reflexivity|]. by rewrite H4m.
    + transitivity (readers w4); [reflexivity|]. by rewrite H4r.
    + transitivity (el_notes w4); [reflexivity|]. rewrite H4n.
      unfold el_notes, w3. simpl. by rewrite fmap_app.
    + transitivity (filter (λ x, x ≠ e) (board w4) ++ [e])%list; [reflexivity|].
      by rewrite H4b.
Qed.

(** A double click on the board itself makes one note: it is added to the
    heap with empty text, at the place of the click relative to the board
    and with the time of the click; it goes last in the manager under its
    new id and last on the board.  A double click whose target is anything
    else changes nothing (both copies). *)
Theorem dblclick_creates_one_note (c : Copy) (k now : string) (ev : MouseEvent)
    (lay : Layout) (w : World) :
  k ∉ manager_ids w →
  board_fresh w →
  heap (handle_app c (EDblClick true k now ev lay) w) =
    (heap w ++ [new_note c k now ev lay])%list ∧
  manager (handle_app c (EDblClick true k now ev lay) w) =
    (manager w ++ [(k, List.length (heap w))])%list ∧
  board_notes (handle_app c (EDblClick true k now ev lay) w) =
    (board_notes w ++ [List.length (heap w)])%list ∧
  handle_app c (EDblClick false k now ev lay) w = w.
Proof.
  intros Hk Hfresh. unfold handle_app, dblclick_listener.
  destruct (createNewNote_spec c k now ev lay w) as (Hh & Hm & _ & Hn & Hb).
  split; [done|]. split; [by rewrite Hm, Map_set_fresh|]. split; [|done].
  by destruct (board_append w _ _ Hfresh Hn Hb).
Qed.

Lemma dblclick_creates_one_note_witness :
  (("z" ∉ manager_ids world_rendered) ∧ board_fresh world_rendered) ∧
  board_notes (handle_app CreatedAtCopy
                 (EDblClick true "z" "2025-07-09T14:37:00.000Z" sample_move roomy_layout)
                 world_rendered) =
    (board_notes world_rendered ++ [List.length (heap world_rendered)])%list.
Proof.
  assert ("z" ∉ manager_ids world_rendered) as Hk.
  { vm_compute. intros Hin. by repeat (apply elem_of_cons in Hin as [Hin|Hin]; [discriminate Hin|]);
      apply elem_of_nil in Hin. }
  assert (board_fresh world_rendered) as Hfresh.
  { vm_compute. repeat constructor. }
  split; [by split|].
  apply (dblclick_creates_one_note CreatedAtCopy "z" "2025-07-09T14:37:00.000Z"
           sample_move roomy_layout world_rendered Hk Hfresh).
Defined.

Example dblclick_sample :
  (λ w, (manager w, heap w !! 2%nat, board w, timestampEl <$> elements w !! 2%nat))
    (handle_app CreatedAtCopy
       (EDblClick true "z" "2025-07-09T14:37:00.000Z" sample_move roomy_layout)
       world_rendered) =
  ([("a", 0%nat); ("b", 1%nat); ("z", 2%nat)],
   Some (mkNote "z" "" (Some 40) (Some 40) (JStr "2025-07-09T14:37:00.000Z") JUndefined
                (JStr "") JUndefined),
   [0; 1; 2]%nat,
   Some (Some [LocaleDate 1752071820000; Lit " "; LocaleTime 1752071820000])).
Proof. vm_compute. reflexivity. Qed.

(** ** What holds of every world a page goes through *)

(** *** The manager *)

Lemma manager_wf_step (w w' : World) :
  (∀ l n, heap w !! l = Some n → ∃ n', heap w' !! l = Some n' ∧ note_id n' = note_id n) →
  (NoDup (manager w).*1 → NoDup (manager w').*1) →
  (∀ k l, (k, l) ∈ manager w' →
          (k, l) ∈ manager w ∨ ∃ n, heap w' !! l = Some n ∧ note_id n = k) →
  manager_wf w → manager_wf w'.
Proof.
  intros Hheap Hnd Hin [Hnd0 Hid]. split; [by apply Hnd|].
  intros k l Hkl. destruct (Hin k l Hkl) as [Hold|Hnew]; [|done].
  destruct (Hid k l Hold) as (n & Hn & <-). by apply Hheap.
Qed.

Lemma ids_kept (w w' : World) :
  note_id <$> heap w' = note_id <$> heap w →
  ∀ l n, heap w !! l = Some n → ∃ n', heap w' !! l = Some n' ∧ note_id n' = note_id n.
Proof.
  intros Hids l n Hn.
  assert ((note_id <$> heap w') !! l = Some (note_id n)) as Hl
    by (by rewrite Hids, list_lookup_fmap, Hn).
  rewrite list_lookup_fmap in Hl. destruct (heap w' !! l) as [n'|]; [|done].
  exists n'. split; [done|]. by injection Hl.
Qed.

Lemma handle_ids (c : Copy) (ev : Event) (w : World) :
  note_id <$> heap (handle c ev w) = note_id <$> heap w.
Proof.
  assert ((∃ k, ev = EReaderLoad k) ∨ ∀ k, ev ≠ EReaderLoad k) as [[k ->]|Hev]
    by (destruct ev; eauto).
  - destruct c; simpl; unfold UiCreatedAt.reader_onload, UiTimestamp.reader_onload;
      (destruct (readers w !! k) as [r|]; [|done]); simpl;
      (destruct (elements w !! reader_element r); [|done]); simpl;
      rewrite (list_fmap_alter note_id _ (λ x, x)) by (by apply Forall_forall);
      by apply list_alter_id.
  - apply fmap_forget_position; [done|]. by apply handle_heap.
Qed.

Lemma Map_delete_NoDup (k : string) (m : NoteManager) :
  NoDup m.*1 → NoDup (Map_delete k m).*1.
Proof.
  unfold Map_delete. induction m as [|[k' l'] m IH]; [done|].
  rewrite fmap_cons. intros [Hk' Hnd]%NoDup_cons.
  rewrite filter_cons. case_decide; [|by apply IH].
  rewrite fmap_cons. apply NoDup_cons. split; [|by apply IH].
  intros Hin. apply Hk'. apply list_elem_of_fmap in Hin as (kl & -> & Hkl).
  apply list_elem_of_filter in Hkl as [_ Hkl]. by apply list_elem_of_fmap_2.
Qed.

Lemma animationend_listener_manager (e : ElemId) (w : World) :
  (NoDup (manager w).*1 → NoDup (manager (animationend_listener e w)).*1) ∧
  (∀ kl, kl ∈ manager (animationend_listener e w) → kl ∈ manager w) ∧
  board (animationend_listener e w) ⊆ board w.
Proof.
  unfold animationend_listener.
  destruct (elements w !! e) as [el|]; [|done].
  destruct (heap w !! el_note el) as [n|]; [|done]. simpl.
  split; [apply Map_delete_NoDup|]. split.
  - intros kl Hkl. by apply list_elem_of_filter in Hkl as [_ ?].
  - intros x Hx. by apply list_elem_of_filter in Hx as [_ ?].
Qed.

Lemma dispatch_animationend_manager (e : ElemId) (w : World) :
  (NoDup (manager w).*1 → NoDup (manager (dispatch_animationend e w)).*1) ∧
  (∀ kl, kl ∈ manager (dispatch_animationend e w) → kl ∈ manager w) ∧
  board (dispatch_animationend e w) ⊆ board w.
Proof.
  unfold dispatch_animationend. destruct (elements w !! e) as [el|]; [|done].
  induction (animationend el) as [|k (IHn & IHm & IHb)]; [done|]. simpl.
  destruct (animationend_listener_manager e (Nat.iter k (animationend_listener e) w))
    as (Hn & Hm & Hb).
  split; [by auto|]. split; [by auto|]. by etrans.
Qed.

Lemma handle_manager_wf (c : Copy) (ev : Event) (w : World) :
  manager_wf w → manager_wf (handle c ev w).
Proof.
  apply manager_wf_step.
  - apply ids_kept, handle_ids.
  - assert ((∃ e, ev = EAnimationEnd e) ∨ ∀ e, ev ≠ EAnimationEnd e) as [[e ->]|Hev]
      by (destruct ev; eauto).
    + destruct c; simpl; apply dispatch_animationend_manager.
    + by rewrite handle_manager.
  - intros k l Hkl. left.
    assert ((∃ e, ev = EAnimationEnd e) ∨ ∀ e, ev ≠ EAnimationEnd e) as [[e ->]|Hev]
      by (destruct ev; eauto).
    + destruct c; simpl in Hkl; by apply dispatch_animationend_manager in Hkl.
    + by rewrite handle_manager in Hkl.
Qed.

Lemma createNewNote_manager_wf (c : Copy) (k now : string) (ev : MouseEvent)
    (lay : Layout) (w : World) :
  manager_wf w → manager_wf (createNewNote c k now (clientX ev) (clientY ev) lay w).2.
Proof.
  destruct (createNewNote_spec c k now ev lay w) as (Hh & Hm & _).
  apply manager_wf_step.
  - intros l n Hn. exists n. split; [|done]. rewrite Hh. by apply lookup_app_l_Some.
  - rewrite Hm. apply Map_set_NoDup.
  - intros k' l. rewrite Hm. intros Hkl.
    apply elem_of_Map_set in Hkl as [[= -> ->]|Hkl]; [|by left].
    right. exists (new_note c k now ev lay).
    split; [rewrite Hh; by apply list_lookup_middle|by destruct c].
Qed.

Lemma handle_app_manager_wf (c : Copy) (ev : AppEvent) (w : World) :
  manager_wf w → manager_wf (handle_app c ev w).
Proof.
  destruct ev as [ev|[|] k now m lay|e text]; simpl.
  - apply handle_manager_wf.
  - apply createNewNote_manager_wf.
  - done.
  - case_bool_decide; [|done]. unfold content_input.
    destruct (elements w !! e) as [el|]; [|done].
    apply (manager_wf_step w); [|done|by auto].
    apply ids_kept. simpl.
    rewrite (list_fmap_alter note_id _ (λ x, x)) by (by apply Forall_forall).
    by apply list_alter_id.
Qed.

(** *** The board *)

Lemma board_fresh_step (w w' : World) :
  board w' ⊆ board w →
  (List.length (elements w) ≤ List.length (elements w'))%nat →
  board_fresh w → board_fresh w'.
Proof.
  unfold board_fresh. rewrite !Forall_forall. intros Hb Hlen Hw e He.
  specialize (Hw e (Hb e He)). simpl in *. lia.
Qed.

Lemma dom_only_board_fresh (w w' : World) :
  dom_only w w' → board_fresh w → board_fresh w'.
Proof.
  intros (_ & _ & Hb & _ & Hn). apply board_fresh_step; [by rewrite Hb|].
  unfold el_notes in Hn.
  by rewrite <- (length_fmap el_note (elements w')), Hn, length_fmap.
Qed.

Lemma handle_board_fresh (c : Copy) (ev : Event) (w : World) :
  board_fresh w → board_fresh (handle c ev w).
Proof.
  destruct ev as [e|e|e t m lay|m lay| |e files|k|order].
  - destruct c; simpl; unfold UiCreatedAt.is_listening, UiTimestamp.is_listening;
      case_bool_decide; try done; apply dom_only_board_fresh, deleteNote_frame.
  - apply board_fresh_step.
    + destruct c; simpl; apply dispatch_animationend_manager.
    + destruct c; simpl; by destruct (dispatch_animationend_frame e w) as (_ & _ & ->).
  - destruct c; simpl; unfold UiCreatedAt.is_listening, UiTimestamp.is_listening;
      case_bool_decide; try done; apply dom_only_board_fresh, mousedown_listener_frame.
  - destruct (document_mousemove_frame m lay w) as (_ & _ & He & Hb & _).
    apply board_fresh_step; destruct c; simpl; by rewrite ?He, ?Hb.
  - destruct c; simpl; apply dom_only_board_fresh, document_mouseup_frame.
  - apply board_fresh_step;
      destruct c; simpl; unfold UiCreatedAt.is_listening, UiTimestamp.is_listening;
      case_bool_decide; try done;
      unfold UiCreatedAt.imageInput_change, UiTimestamp.imageInput_change;
      repeat case_match; done.
  - apply board_fresh_step;
      destruct c; simpl; unfold UiCreatedAt.reader_onload, UiTimestamp.reader_onload;
      repeat case_match; simpl; rewrite ?length_alter; done.
  - intros _.
    assert (handle c (ESortClick order) w = sortNotesByTimestamp c order w) as ->
      by (by destruct c).
    eapply adds_elements_fresh; [|apply (sort_adds_elements c order w)].
    apply board_fresh_empty.
Qed.

Lemma handle_app_board_fresh (c : Copy) (ev : AppEvent) (w : World) :
  board_fresh w → board_fresh (handle_app c ev w).
Proof.
  destruct ev as [ev|[|] k now m lay|e text]; simpl.
  - apply handle_board_fresh.
  - intros Hfresh. unfold dblclick_listener.
    destruct (createNewNote_spec c k now m lay w) as (_ & _ & _ & Hn & Hb).
    by destruct (board_append w _ _ Hfresh Hn Hb).
  - done.
  - case_bool_decide; [|done]. unfold content_input. by destruct (elements w !! e).
Qed.

(** *** A drag in progress *)

Lemma addNote_elements (l : Loc) (w : World) :
  elements (addNote l w) = elements w ∧ trace (addNote l w) = trace w.
Proof. unfold addNote. by destruct (heap w !! l). Qed.

Lemma handle_app_drag_defined (c : Copy) (ev : AppEvent) (w : World) :
  drag_defined w → drag_defined (handle_app c ev w).
Proof.
  destruct ev as [ev|[|] k now m lay|e text]; simpl.
  - apply handle_drag_defined.
  - intros Hw. unfold dblclick_listener, createNewNote, createNote.
    cbv beta iota zeta.
    destruct c; cbn [snd].
    + apply UiCreatedAt_renderTimestamp_drag.
      eapply drag_defined_elements; [reflexivity|].
      apply UiCreatedAt_setup_drag, drag_defined_createElement.
      eapply drag_defined_elements; [apply (proj1 (addNote_elements _ _))|done].
    + apply UiTimestamp_renderTimestamp_drag.
      eapply drag_defined_elements; [reflexivity|].
      apply UiTimestamp_setup_drag, drag_defined_createElement.
      eapply drag_defined_elements; [apply (proj1 (addNote_elements _ _))|done].
  - done.
  - case_bool_decide; [|done]. unfold content_input. by destruct (elements w !! e).
Qed.

(** *** The calls of [updatePosition] *)

Lemma numeric_same (w w' : World) : trace w' = trace w → numeric w → numeric w'.
Proof. unfold numeric. by intros ->. Qed.

Lemma numeric_log (c : Call) (w : World) :
  numeric_call c → numeric w → numeric (log c w).
Proof.
  intros Hc Hw. unfold numeric. simpl. apply Forall_app. split; [done|by constructor].
Qed.

Lemma renderTimestamp_numeric (c : Copy) (e : ElemId) (ts : JsValue) (w : World) :
  numeric w →
  numeric (match c with
           | CreatedAtCopy => UiCreatedAt.renderTimestamp
           | TimestampCopy => UiTimestamp.renderTimestamp
           end e ts w).
Proof.
  intros Hw.
  destruct c; unfold UiCreatedAt.renderTimestamp, UiTimestamp.renderTimestamp;
    repeat case_match; try (by apply numeric_log);
    (eapply numeric_same; [|exact Hw]); reflexivity.
Qed.

Lemma setup_numeric (c : Copy) (e : ElemId) (l : Loc) (w : World) :
  numeric w →
  numeric (match c with
           | CreatedAtCopy => UiCreatedAt.setupNoteEventListeners
           | TimestampCopy => UiTimestamp.setupNoteEventListeners
           end e l w).
Proof.
  intros Hw.
  destruct c; unfold UiCreatedAt.setupNoteEventListeners,
    UiTimestamp.setupNoteEventListeners; cbn zeta.
  - eapply numeric_same; [reflexivity|].
    case_match; [apply (renderTimestamp_numeric CreatedAtCopy)|];
      case_match; by (eapply numeric_same; [|exact Hw]).
  - eapply numeric_same; [reflexivity|].
    case_match; [apply (renderTimestamp_numeric TimestampCopy)|];
      case_match; by (eapply numeric_same; [|exact Hw]).
Qed.

Lemma render_step_numeric (c : Copy) (w : World) (l : Loc) :
  numeric w →
  numeric (let '(e, w) := createElement l w in
           appendChild e (match c with
                          | CreatedAtCopy => UiCreatedAt.setupNoteEventListeners
                          | TimestampCopy => UiTimestamp.setupNoteEventListeners
                          end e l w)).
Proof.
  intros Hw. unfold createElement. cbn zeta.
  eapply numeric_same; [reflexivity|]. apply setup_numeric.
  by eapply numeric_same; [|exact Hw].
Qed.

Lemma UiCreatedAt_place_numeric (st : Z * World) (l : Loc) :
  numeric st.2 → numeric (UiCreatedAt.place st l).2.
Proof.
  destruct st as [o w]. cbn [snd]. intros Hw.
  unfold UiCreatedAt.place, createElement. cbn zeta. cbn [snd].
  apply (renderTimestamp_numeric CreatedAtCopy).
  eapply numeric_same; [reflexivity|].
  apply (setup_numeric CreatedAtCopy).
  eapply numeric_same; [reflexivity|].
  apply numeric_log; [|done]. simpl. by eauto.
Qed.

Lemma fold_numeric {St} (world : St → World) (step : St → Loc → St) (ls : list Loc) (st : St) :
  (∀ st l, numeric (world st) → numeric (world (step st l))) →
  numeric (world st) → numeric (world (foldl step st ls)).
Proof.
  intros Hstep. revert st. induction ls as [|l ls IH]; intros st Hst; [done|].
  cbn [foldl]. by apply IH, Hstep.
Qed.

Lemma renderAllNotes_numeric (c : Copy) (w : World) :
  numeric w → numeric (renderAllNotes c w).
Proof.
  intros Hw. destruct c; simpl.
  - unfold UiCreatedAt.renderAllNotes. cbn zeta.
    apply (fold_numeric (λ w, w) _ _ (set_board [] w) (render_step_numeric CreatedAtCopy)).
    by eapply numeric_same; [|exact Hw].
  - unfold UiTimestamp.renderAllNotes. cbn zeta.
    apply (fold_numeric (λ w, w) UiTimestamp.place _ _ (render_step_numeric TimestampCopy)).
    generalize (board w) as es. intros es. revert w Hw.
    induction es as [|e es IH]; intros w Hw; [done|].
    cbn [foldl]. apply IH. by apply numeric_log.
Qed.

Lemma document_mousemove_numeric (ev : MouseEvent) (lay : Layout) (w : World) :
  drag_defined w → numeric w → numeric (document_mousemove ev lay w).
Proof.
  unfold document_mousemove. generalize (listeners w) as es. intros es.
  revert w. induction es as [|e es IH]; intros w Hd Hw; [done|].
  cbn [foldl].
  assert (elements (mousemove_listener e ev lay w) = elements w ∧
          numeric (mousemove_listener e ev lay w)) as [Hel Hnum].
  { unfold mousemove_listener.
    destruct (elements w !! e) as [el|] eqn:He; [|done].
    destruct (isDragging el) eqn:Hdrag; [|done]. simpl.
    unfold drag_defined in Hd. rewrite Forall_lookup in Hd.
    destruct (Hd e el He Hdrag) as [[ox Hox] [oy Hoy]].
    unfold drag_position. rewrite Hox, Hoy. simpl. split; [done|].
    apply numeric_log; [|done]. simpl. by eauto. }
  apply IH; [|done]. by eapply drag_defined_elements.
Qed.

Lemma handle_numeric (c : Copy) (ev : Event) (w : World) :
  drag_defined w → numeric w → numeric (handle c ev w).
Proof.
  intros Hd Hw.
  destruct ev as [e|e|e t m lay|m lay| |e files|k|order].
  - destruct c; simpl; unfold UiCreatedAt.is_listening, UiTimestamp.is_listening;
      case_bool_decide; try done;
      (eapply numeric_same; [apply deleteNote_frame|done]).
  - assert (numeric (dispatch_animationend e w)) as Hn.
    { unfold dispatch_animationend. destruct (elements w !! e) as [el|]; [|done].
      induction (animationend el) as [|k IH]; [done|]. simpl.
      unfold animationend_listener at 1. repeat case_match; try done.
      by repeat apply numeric_log. }
    by destruct c.
  - destruct c; simpl; unfold UiCreatedAt.is_listening, UiTimestamp.is_listening;
      case_bool_decide; try done;
      (eapply numeric_same; [apply mousedown_listener_frame|done]).
  - destruct c; simpl; by apply document_mousemove_numeric.
  - destruct c; simpl; (eapply numeric_same; [apply document_mouseup_frame|done]).
  - destruct c; simpl; unfold UiCreatedAt.is_listening, UiTimestamp.is_listening;
      case_bool_decide; try done;
      unfold UiCreatedAt.imageInput_change, UiTimestamp.imageInput_change;
      repeat case_match; try done; by apply numeric_log.
  - destruct c; simpl; unfold UiCreatedAt.reader_onload, UiTimestamp.reader_onload;
      repeat case_match; try done; by (eapply numeric_same; [|exact Hw]).
  - destruct c; simpl.
    + unfold UiCreatedAt.sortNotesByTimestamp. cbn zeta.
      apply (fold_numeric snd UiCreatedAt.place _ (20, set_board [] w)
               UiCreatedAt_place_numeric).
      by eapply numeric_same; [|exact Hw].
    + eapply numeric_same; [|exact Hw]. apply UiTimestamp_sort_spec.
Qed.

Lemma handle_app_numeric (c : Copy) (ev : AppEvent) (w : World) :
  drag_defined w → numeric w → numeric (handle_app c ev w).
Proof.
  intros Hd Hw. destruct ev as [ev|[|] k now m lay|e text]; simpl.
  - by apply handle_numeric.
  - unfold dblclick_listener, createNewNote, createNote. cbv beta iota zeta.
    destruct c; cbn [snd].
    + apply (renderTimestamp_numeric CreatedAtCopy).
      eapply numeric_same; [reflexivity|]. apply (setup_numeric CreatedAtCopy).
      eapply numeric_same; [reflexivity|].
      eapply numeric_same; [apply addNote_elements|]. done.
    + apply (renderTimestamp_numeric TimestampCopy).
      eapply numeric_same; [reflexivity|]. apply (setup_numeric TimestampCopy).
      eapply numeric_same; [reflexivity|].
      eapply numeric_same; [apply addNote_elements|]. done.
  - done.
  - case_bool_decide; [|done]. unfold content_input. by destruct (elements w !! e).
Qed.

(** *** The bootstrap *)

Lemma forEach_saved_dom (now : nat → string) (records : list Note) (i : nat) (w : World) :
  elements (Main.forEach_saved now i records w) = elements w ∧
  board (Main.forEach_saved now i records w) = board w ∧
  trace (Main.forEach_saved now i records w) = trace w.
Proof.
  revert i w. induction records as [|r rs IH]; intros i w; [done|].
  simpl. unfold Main.new_Note, addNote. cbn zeta. simpl.
  rewrite list_lookup_middle by done.
  by destruct (IH (S i) (set_manager
    (Map_set (note_id (if negb (truthy (timestamp r))
                       then set_timestamp (JStr (now i)) r else r))
             (List.length (heap w)) (manager w))
    (set_heap (heap w ++ [if negb (truthy (timestamp r))
                          then set_timestamp (JStr (now i)) r else r])%list w)))
    as (-> & -> & ->).
Qed.

Lemma bootstrap_board_fresh (c : Copy) (now : nat → string) (saved : Main.Saved) :
  board_fresh (Main.bootstrap c now saved).
Proof.
  destruct saved as [| |records]; simpl; [by constructor..|].
  eapply adds_elements_fresh; [|apply renderAllNotes_adds_elements].
  apply board_fresh_empty.
Qed.

Lemma bootstrap_numeric (c : Copy) (now : nat → string) (saved : Main.Saved) :
  numeric (Main.bootstrap c now saved).
Proof.
  destruct saved as [| |records]; simpl; [by constructor..|].
  apply renderAllNotes_numeric.
  eapply numeric_same; [apply forEach_saved_dom|]. constructor.
Qed.

(** A page that was started by the DOMContentLoaded handler of main.js and
    has since seen any sequence of the events of ui.js (clicks on the delete
    button and on the sort buttons, ends of the fade-out animation, mouse
    downs, moves and ups, image choices and the loads of their readers,
    double clicks, edits of the text), with either copy of ui.js, is in a
    state where: the keys of the manager are distinct and each is the id of
    a note object; every child of the board is an element that was created;
    an element that is being dragged has both of its offsets set to numbers;
    and every call of [updatePosition] made so far was given two numbers,
    never the [NaN] that an unset offset would give. *)
Theorem reachable_page_invariant (c : Copy) (w : World) :
  reachable c w → page_invariant w.
Proof.
  induction 1 as [now saved|ev w _ (Hm & Hb & Hd & Hn)].
  - repeat split.
    + apply bootstrap_manager_wf.
    + apply bootstrap_manager_wf.
    + apply bootstrap_board_fresh.
    + apply bootstrap_drag_defined.
    + apply bootstrap_numeric.
  - split; [by apply handle_app_manager_wf|].
    split; [by apply handle_app_board_fresh|].
    split; [by apply handle_app_drag_defined|by apply handle_app_numeric].
Qed.

(** The page that was started with the sample records, on which the first
    note was then grabbed and moved, is such a state. *)
Lemma reachable_page_invariant_witness :
  page_invariant
    (handle_app TimestampCopy (Ui (EMouseMove sample_move roomy_layout))
       (handle_app TimestampCopy
          (Ui (EMouseDown 0%nat TElsewhere sample_move roomy_layout))
          (Main.bootstrap TimestampCopy sample_clock (Main.SavedArray sample_records)))).
Proof.
  apply (reachable_page_invariant TimestampCopy).
  apply reachable_event, reachable_event, reachable_bootstrap.
Defined.

(** ** The quote button *)

Lemma quote_run_snoc (t0 : string) (evs : list QuoteEvent) (ev : QuoteEvent) :
  quote_run t0 (evs ++ [ev]) = quote_step (quote_run t0 evs) ev.
Proof. unfold quote_run. by rewrite foldl_app. Qed.

Lemma quote_step_shows (b : QuoteButton) (ev : QuoteEvent) :
  quote_shows b → quote_shows (quote_step b ev).
Proof.
  unfold quote_shows. destruct b as [t p ti er]. simpl. intros Hb.
  destruct ev; simpl.
  - left. split; [done|lia].
  - destruct p; [done|]. by right; right.
  - destruct p; [done|]. right; left. split; [done|simpl; lia].
  - destruct ti; [done|]. by right; right.
Qed.

Lemma quote_run_unclicked (t0 : string) (evs : list QuoteEvent) :
  QClick ∉ evs → quote_run t0 evs = mkQuoteButton t0 0 0 0.
Proof.
  induction evs as [|ev evs IH] using rev_ind; [done|].
  rewrite quote_run_snoc. intros Hnot.
  rewrite IH by (intros Hin; apply Hnot, elem_of_app; by left).
  destruct ev; try done.
  exfalso. apply Hnot, elem_of_app. right. by apply list_elem_of_singleton.
Qed.

Lemma quote_run_clicked (t0 : string) (evs : list QuoteEvent) :
  QClick ∈ evs → quote_shows (quote_run t0 evs).
Proof.
  induction evs as [|ev evs IH] using rev_ind.
  { intros Hin. by apply elem_of_nil in Hin. }
  rewrite quote_run_snoc. intros Hin.
  destruct ev; try (apply quote_step_shows, IH;
    apply elem_of_app in Hin as [Hin|Hin]; [done|];
    by apply list_elem_of_singleton in Hin).
  left. split; [done|simpl; lia].
Qed.

Lemma quote_errors_bound (t0 : string) (evs : list QuoteEvent) :
  (quote_pending (quote_run t0 evs) + quote_errors (quote_run t0 evs) ≤
     List.length (filter (λ ev, ev = QClick) evs))%nat ∧
  (quote_timers (quote_run t0 evs) ≤ quote_errors (quote_run t0 evs))%nat.
Proof.
  induction evs as [|ev evs [IH1 IH2]] using rev_ind; [simpl; lia|].
  rewrite quote_run_snoc, filter_app, length_app.
  destruct (quote_run t0 evs) as [t p ti er]. simpl in IH1, IH2.
  destruct ev.
  - rewrite filter_cons_True by done. simpl. lia.
  - rewrite filter_cons_False by done. destruct p; simpl in *; lia.
  - rewrite filter_cons_False by done. destruct p; simpl in *; lia.
  - rewrite filter_cons_False by done. destruct ti; simpl in *; lia.
Qed.

(** The click listener of the quote button (lines 106-116 and 412-427),
    under any interleaving of clicks, settlements of the awaited
    [addRandomQuote] calls and firings of the 1500 ms timeouts: once no call
    is awaited and no timeout is due, the button shows the bulb if it was
    ever clicked and its first text if it never was, so it is never left on
    the hourglass or on the cross; and [console.error] was called at most
    once per click. *)
Theorem quote_button_settles (t0 : string) (evs : list QuoteEvent) :
  quote_idle (quote_run t0 evs) →
  (QClick ∈ evs → quote_textContent (quote_run t0 evs) = "💡") ∧
  (QClick ∉ evs → quote_textContent (quote_run t0 evs) = t0) ∧
  (quote_errors (quote_run t0 evs) ≤ List.length (filter (λ ev, ev = QClick) evs))%nat.
Proof.
  intros [Hp Ht]. split; [|split].
  - intros Hin. destruct (quote_run_clicked t0 evs Hin) as [[_ H]|[[_ H]|H]]; [lia..|done].
  - intros Hnot. by rewrite quote_run_unclicked.
  - pose proof (quote_errors_bound t0 evs). lia.
Qed.

(** Two clicks, of which the first call fails and the second succeeds, and
    the timeout of the failure. *)
Lemma quote_button_settles_witness :
  quote_idle (quote_run "💡" [QClick; QClick; QRejected; QFulfilled; QTimeout]) ∧
  quote_textContent (quote_run "💡" [QClick; QClick; QRejected; QFulfilled; QTimeout]) = "💡" ∧
  quote_errors (quote_run "💡" [QClick; QClick; QRejected; QFulfilled; QTimeout]) = 1%nat.
Proof.
  assert (quote_idle (quote_run "💡" [QClick; QClick; QRejected; QFulfilled; QTimeout]))
    as Hidle by (split; reflexivity).
  split; [exact Hidle|]. split; [|reflexivity].
  apply (proj1 (quote_button_settles "💡"
                  [QClick; QClick; QRejected; QFulfilled; QTimeout] Hidle)).
  apply list_elem_of_here.
Defined.

